(** * MultiMinio: a health-aware fallback facade over several Minio clients

    Shallow embedding of [multiminio/multiminio.py].

    Modelling choices.
    - [TS] values (the [tsx.TS] float subclass) and the durations obtained by
      subtracting them are exact numbers, counted in milliseconds: the
      default [HEALTH_CHECK_TIMEOUT = 5.0] seconds is [5000].
    - Everything outside the class is an explicit [World] threaded through
      the code: the clock behind [ts_type.now()], the HTTP layer behind
      [requests.get] and the servers behind the wrapped [Minio] methods.
      They are the fields of the [Environment] class, so every theorem holds
      for whatever the environment does.
    - A Python method that mutates [self] and may raise is a function
      [MultiMinio -> World -> Result A * MultiMinio * World]; the object is
      returned on every path because an exception does not roll back the
      assignments made before it.
    - Both [while] loops are driven by the clock, so they are Fixpoints on a
      fuel argument; [OutOfFuel] is the model's answer when the fuel given
      was too small, and is not a Python value.
    - [RLock] sections and the [logging.error] / [logging.warning] calls are
      not represented.  The thread pool behind [mtmap] is run one client
      after the other; its results are in tuple order in the code as well,
      the order of the requests and clock readings among the probes of one
      round is not, and no statement below is about that order.
    - What a wrapped method raises is an [Exception]; [requests.get]
      answers or raises a [RequestException], which is its contract for a
      positive timeout (with [timeout <= 0] it raises [ValueError], which
      [_check_health_status] does not catch and this model does not have);
      [_get_client_url] finds one of the two shapes of [_base_url] it
      knows. *)

From Stdlib Require Import ZArith List String Bool Lia PeanoNat Permutation.
Import ListNotations.
Local Open Scope string_scope.
Local Open Scope Z_scope.

(** ** Data model *)

Definition TS := Z.

(** [requests.RequestException], raised by [requests.get]. *)
Inductive RequestException : Type :=
| RequestError (detail : string).

(** [class HealthStatus(NamedTuple)]:
    [status_code: int | Exception], [response_time: Optional[float]]. *)
Record HealthStatus : Type := mkHealthStatus {
  status_code : Z + RequestException;
  response_time : option TS
}.

(** [class LoadBalanceType(StrEnum)]. *)
Inductive LoadBalanceType : Type :=
| FALLBACK
| ROUND_ROBIN
| RANDOM.

Definition LoadBalanceType_eqb (a b : LoadBalanceType) : bool :=
  match a, b with
  | FALLBACK, FALLBACK => true
  | ROUND_ROBIN, ROUND_ROBIN => true
  | RANDOM, RANDOM => true
  | _, _ => false
  end.

(** The [_base_url] attribute of a [Minio] client: an object with [geturl()]
    (a [ParseResult]) or, when it has none, one with [host] and [is_https]. *)
Inductive BaseUrl : Type :=
| ParseResult (geturl : string)
| BaseURL (host : string) (is_https : bool).

Record Minio : Type := mkMinio {
  _base_url : BaseUrl
}.

(** A wrapped method with the arguments of one call:
    [func.__name__], [args], [kwargs]. *)
Record Call : Type := mkCall {
  func_name : string;
  call_args : string;
  call_kwargs : string
}.

(** The two f-strings the class raises [MinioException] with; each
    constructor keeps the values interpolated into the text. *)
Inductive Message : Type :=
| AllClientsDown (down_time : TS)
    (* f"All Minio clients are down for {down_time:.3f} seconds" *)
| FailedToExecute (name args kwargs : string) (within : TS)
    (* f"Failed to execute:\n{func.__name__}({args}, {kwargs})\n
         on all Minio clients within {self._max_try_timeout:.3f} seconds" *)
| ServerMessage (text : string).

(** Exceptions, as far as the [except] clauses tell them apart. *)
Inductive PyException : Type :=
| S3Error (code : string)
| InvalidResponseError (code : Z)
| MinioException (msg : Message)
| OtherException (detail : string)
| AssertionError
| IndexError.

Definition is_S3Error (e : PyException) : bool :=
  match e with S3Error _ => true | _ => false end.

Definition is_InvalidResponseError (e : PyException) : bool :=
  match e with InvalidResponseError _ => true | _ => false end.

(** What [requests.get] does: a response with its status code, or a
    [RequestException]. *)
Inductive HttpResult : Type :=
| Response (code : Z)
| HttpRaised (e : RequestException).

(** What a wrapped [Minio] method does: a value or an exception. *)
Inductive CallOutcome : Type :=
| Returned (value : string)
| Raised (e : PyException).

(** The object: configuration and failover state, one field per attribute
    assigned in [__init__], but for [_ts_type] and [_lock]. *)
Record MultiMinio : Type := mkMultiMinio {
  _clients : list Minio;
  _load_balance_type : LoadBalanceType;
  _fallback_timeout : TS;
  _health_check_timeout : TS;
  _health_check_heartbeat : TS;
  _max_try_timeout : TS;
  _health_check_min_interval : TS;
  _current_client_index : nat;
  _last_health_check_ts : TS;
  _current_fail_ts : option TS;
  _health_statuses : option (list HealthStatus)
}.

Definition set_current_client_index (i : nat) (self : MultiMinio) : MultiMinio :=
  mkMultiMinio (_clients self) (_load_balance_type self) (_fallback_timeout self)
    (_health_check_timeout self) (_health_check_heartbeat self)
    (_max_try_timeout self) (_health_check_min_interval self)
    i (_last_health_check_ts self) (_current_fail_ts self)
    (_health_statuses self).

Definition set_current_fail_ts (t : option TS) (self : MultiMinio) : MultiMinio :=
  mkMultiMinio (_clients self) (_load_balance_type self) (_fallback_timeout self)
    (_health_check_timeout self) (_health_check_heartbeat self)
    (_max_try_timeout self) (_health_check_min_interval self)
    (_current_client_index self) (_last_health_check_ts self) t
    (_health_statuses self).

(** The two assignments that end [_retrieve_clients_health]. *)
Definition set_health (t : TS) (statuses : list HealthStatus)
    (self : MultiMinio) : MultiMinio :=
  mkMultiMinio (_clients self) (_load_balance_type self) (_fallback_timeout self)
    (_health_check_timeout self) (_health_check_heartbeat self)
    (_max_try_timeout self) (_health_check_min_interval self)
    (_current_client_index self) t (_current_fail_ts self)
    (Some statuses).

(** The object after a successful call that moved to client [i]: index
    assigned by the search, marker cleared by the dispatcher. *)
Definition failed_over (i : nat) (self : MultiMinio) : MultiMinio :=
  set_current_fail_ts None (set_current_client_index i self).

(** ** Class constants *)

Definition HEALTH_CHECK_TIMEOUT : TS := 5000.
Definition DEFAULT_FALLBACK_TIMEOUT : TS := 60000.
Definition HEALTH_CHECK_HEARTBEAT : TS := 300000.
Definition MAX_TRY_TIMEOUT : TS := 60000.
Definition HEALTH_CHECK_INTERVAL : TS := 10000.
Definition MAX_COMPATIBILITY : bool := true.

(** ** Results *)

Inductive Result (A : Type) : Type :=
| Return (a : A)
| Raise (e : PyException)
| OutOfFuel.

Arguments Return {A} a.
Arguments Raise {A} e.
Arguments OutOfFuel {A}.

(** ** [__init__] *)

Record InitArgs : Type := mkInitArgs {
  clients : list Minio;
  load_balance_type : LoadBalanceType;
  fallback_timeout : TS;
  health_check_timeout : TS;
  health_check_heartbeat : TS;
  max_try_timeout : TS;
  health_check_interval : TS
}.

(** The keyword defaults of [__init__]. *)
Definition default_args (cs : list Minio) : InitArgs :=
  mkInitArgs cs FALLBACK DEFAULT_FALLBACK_TIMEOUT HEALTH_CHECK_TIMEOUT
    HEALTH_CHECK_HEARTBEAT MAX_TRY_TIMEOUT HEALTH_CHECK_INTERVAL.

(** The four [assert]s in source order, then the initial state:
    index [0], [TS(0)], [None], [None]. *)
Definition __init__ (a : InitArgs) : PyException + MultiMinio :=
  if negb (0 <? List.length (clients a))%nat then inl AssertionError
  else if negb (LoadBalanceType_eqb (load_balance_type a) FALLBACK)
  then inl AssertionError
  else if negb (health_check_interval a * 2 <=? health_check_heartbeat a)
  then inl AssertionError
  else if negb (health_check_timeout a * 2 <=? health_check_interval a)
  then inl AssertionError
  else inr (mkMultiMinio (clients a) (load_balance_type a)
              (fallback_timeout a) (health_check_timeout a)
              (health_check_heartbeat a) (max_try_timeout a)
              (health_check_interval a) 0%nat 0 None None).

(** The arguments one of the four [assert]s refuses. *)
Definition rejected (a : InitArgs) : Prop :=
  clients a = [] \/ load_balance_type a <> FALLBACK \/
  health_check_heartbeat a < 2 * health_check_interval a \/
  health_check_interval a < 2 * health_check_timeout a.

(** ** [_get_client_url] *)

Definition _get_client_url (client : Minio) : string :=
  match _base_url client with
  | ParseResult url => url
  | BaseURL _host _is_https =>
      let _protocol := if _is_https then "https" else "http" in
      _protocol ++ "://" ++ _host
  end.

(** The scan of [_get_next_client]:
    [for i, health_status in enumerate(health_statuses)], stopping at the
    first [status_code == 200]. *)
Definition is_healthy (h : HealthStatus) : bool :=
  match status_code h with
  | inl code => code =? 200
  | inr _ => false
  end.

Fixpoint scan_from (i : nat) (hs : list HealthStatus) : option nat :=
  match hs with
  | [] => None
  | h :: rest => if is_healthy h then Some i else scan_from (S i) rest
  end.

Definition first_healthy (hs : list HealthStatus) : option nat := scan_from 0 hs.

(** ** State invariant

    What holds of the object from [__init__] on: the index is a position of
    [_clients], a stored snapshot has one entry per client, and a positive
    snapshot timestamp comes with a stored snapshot. *)

Definition has_snapshot (self : MultiMinio) : bool :=
  match _health_statuses self with Some _ => true | None => false end.

Definition snapshot_aligned (self : MultiMinio) : bool :=
  match _health_statuses self with
  | Some hs => (List.length hs =? List.length (_clients self))%nat
  | None => true
  end.

Definition wf (self : MultiMinio) : bool :=
  (_current_client_index self <? List.length (_clients self))%nat
  && snapshot_aligned self
  && implb (0 <? _last_health_check_ts self) (has_snapshot self).

(** The attributes only [__init__] assigns. *)
Definition same_config (self self' : MultiMinio) : Prop :=
  _clients self' = _clients self /\
  _load_balance_type self' = _load_balance_type self /\
  _fallback_timeout self' = _fallback_timeout self /\
  _health_check_timeout self' = _health_check_timeout self /\
  _health_check_heartbeat self' = _health_check_heartbeat self /\
  _max_try_timeout self' = _max_try_timeout self /\
  _health_check_min_interval self' = _health_check_min_interval self.

(** An entry is healthy when its status is the integer 200. *)
Definition healthy_at (hs : list HealthStatus) (i : nat) : Prop :=
  exists h, nth_error hs i = Some h /\ status_code h = inl 200.

(** [i] is the first healthy position of [hs]. *)
Definition first_healthy_at (hs : list HealthStatus) (i : nat) : Prop :=
  healthy_at hs i /\ forall j, (j < i)%nat -> ~ healthy_at hs j.

(** ** The environment

    What the class calls and does not define, as operations on a [World]. *)
Class Environment (World : Type) : Type := {
  (** [self._ts_type.now()]. *)
  now : World -> TS * World;
  (** [requests.get(url, timeout=...)]. *)
  requests_get : string -> TS -> World -> HttpResult * World;
  (** [getattr(client, func.__name__)] applied to the call's arguments. *)
  call_method : Minio -> Call -> World -> CallOutcome * World;
  (** [func] applied to [client] and the call's arguments. *)
  call_function : Call -> Minio -> World -> CallOutcome * World
}.

Section Facade.

Context {World : Type} {env : Environment World}.

Definition M (A : Type) : Type :=
  MultiMinio -> World -> Result A * MultiMinio * World.

Definition ret {A} (a : A) : M A := fun self w => (Return a, self, w).

Definition raise {A} (e : PyException) : M A := fun self w => (Raise e, self, w).

Definition bind {A B} (m : M A) (k : A -> M B) : M B :=
  fun self w =>
    match m self w with
    | (Return a, self', w') => k a self' w'
    | (Raise e, self', w') => (Raise e, self', w')
    | (OutOfFuel, self', w') => (OutOfFuel, self', w')
    end.

Definition get_self : M MultiMinio := fun self w => (Return self, self, w).

Definition modify (f : MultiMinio -> MultiMinio) : M unit :=
  fun self w => (Return tt, f self, w).

(** An environment action, run inside a method. *)
Definition lift {A} (act : World -> A * World) : M A :=
  fun self w => let (a, w') := act w in (Return a, self, w').

Notation "x <- m ;; k" := (bind m (fun x => k))
  (at level 61, m at next level, right associativity).
Notation "m ;;; k" := (bind m (fun _ => k))
  (at level 61, right associativity).

(** ** [_check_health_status] *)

Definition _check_health_status (self : MultiMinio) (client : Minio)
    (w : World) : HealthStatus * World :=
  let url := _get_client_url client in
  let (t0, w1) := now w in
  let (response, w2) :=
    requests_get (url ++ "/minio/health/live") (_health_check_timeout self) w1 in
  let (t1, w3) := now w2 in
  let dt := t1 - t0 in
  match response with
  | Response code => (mkHealthStatus (inl code) (Some dt), w3)
  | HttpRaised e => (mkHealthStatus (inr e) (Some dt), w3)
  end.

(** [stream(self._clients).mtmap(f, poolSize=pool_size)]: one result per
    client, in the order of the clients. *)
Fixpoint mtmap {A B} (f : A -> World -> B * World) (xs : list A)
    (w : World) : list B * World :=
  match xs with
  | [] => ([], w)
  | x :: rest =>
      let (y, w1) := f x w in
      let (ys, w2) := mtmap f rest w1 in
      (y :: ys, w2)
  end.

Definition pool_size (self : MultiMinio) : nat :=
  Nat.min (List.length (_clients self)) 32.

(** ** [_retrieve_clients_health] *)

Definition _retrieve_clients_health : M (list HealthStatus) :=
  self <- get_self ;;
  t <- lift now ;;
  let health_status_age := t - _last_health_check_ts self in
  if (0 <? _last_health_check_ts self)
     && (health_status_age <? _health_check_min_interval self)
  then
    match _health_statuses self with
    | None => raise AssertionError
    | Some statuses => ret statuses
    end
  else
    statuses <- lift (mtmap (_check_health_status self) (_clients self)) ;;
    t' <- lift now ;;
    modify (set_health t' statuses) ;;;
    ret statuses.

(** ** [_get_next_client] *)

(** [self._clients[self._current_client_index]]. *)
Definition current_client_item : M Minio :=
  self <- get_self ;;
  match nth_error (_clients self) (_current_client_index self) with
  | Some client => ret client
  | None => raise IndexError
  end.

(** The [while True] loop, entered with the local [start_ts]. *)
Fixpoint next_client_loop (fuel : nat) (start_ts : TS) : M Minio :=
  match fuel with
  | O => fun self w => (OutOfFuel, self, w)
  | S fuel' =>
      health_statuses <- _retrieve_clients_health ;;
      match first_healthy health_statuses with
      | Some i =>
          modify (set_current_client_index i) ;;;
          current_client_item
      | None =>
          now_ts <- lift now ;;
          self <- get_self ;;
          let down_time := now_ts - start_ts in
          if _fallback_timeout self <? down_time
          then raise (MinioException (AllClientsDown down_time))
          else next_client_loop fuel' start_ts
      end
  end.

(** [self._current_fail_ts or self._ts_type.now()]: the clock is read when
    the marker is [None] or a zero timestamp ([TS] is a float, and [0.0]
    is false). *)
Definition fail_ts_or_now : M TS :=
  self <- get_self ;;
  match _current_fail_ts self with
  | Some t => if t =? 0 then lift now else ret t
  | None => lift now
  end.

Definition _get_next_client (fuel : nat) : M Minio :=
  start_ts <- fail_ts_or_now ;;
  next_client_loop fuel start_ts.

(** ** [_get_current_client] *)

Definition _get_current_client (fuel : nat) : M Minio :=
  now_ts <- lift now ;;
  self <- get_self ;;
  let health_check_age := now_ts - _last_health_check_ts self in
  if (0 <? _current_client_index self)%nat
     && (_health_check_heartbeat self <? health_check_age)
  then _get_next_client fuel
  else current_client_item.

(** ** [_execute_with_fallback] *)

(** The [try] body up to [result = ...]. *)
Definition invoke (func : Call) (current_client : Minio) : M CallOutcome :=
  if MAX_COMPATIBILITY
  then lift (call_method current_client func)
  else lift (call_function func current_client).

(** [if self._current_fail_ts is None: self._current_fail_ts = start_try_ts]. *)
Definition mark_failure (start_try_ts : TS) (self : MultiMinio) : MultiMinio :=
  match _current_fail_ts self with
  | None => set_current_fail_ts (Some start_try_ts) self
  | Some _ => self
  end.

(** The [while self._ts_type.now() - start_try_ts < self._fallback_timeout]
    loop and the [raise] after it. *)
Fixpoint fallback_loop (fuel : nat) (func : Call) (start_try_ts : TS)
    (current_client : Minio) : M string :=
  match fuel with
  | O => fun self w => (OutOfFuel, self, w)
  | S fuel' =>
      t <- lift now ;;
      self <- get_self ;;
      if t - start_try_ts <? _fallback_timeout self
      then
        outcome <- invoke func current_client ;;
        match outcome with
        | Returned result =>
            modify (set_current_fail_ts None) ;;;
            ret result
        | Raised e =>
            if is_S3Error e then raise e
            else if is_InvalidResponseError e then raise e
            else
              modify (mark_failure start_try_ts) ;;;
              next_client <- _get_next_client fuel' ;;
              fallback_loop fuel' func start_try_ts next_client
        end
      else
        raise (MinioException
                 (FailedToExecute (func_name func) (call_args func)
                    (call_kwargs func) (_max_try_timeout self)))
  end.

Definition _execute_with_fallback (fuel : nat) (func : Call) : M string :=
  start_try_ts <- lift now ;;
  current_client <- _get_current_client fuel ;;
  fallback_loop fuel func start_try_ts current_client.

(** [_method_wrapper(method)]: every public method of [Minio] is replaced
    by this wrapper in [__new__]. *)
Definition wrapper (fuel : nat) (method : Call) : M string :=
  _execute_with_fallback fuel method.

(** ** Notions used in the statements *)

(** The cache test of [_retrieve_clients_health] at clock reading [t]. *)
Definition cache_fresh (self : MultiMinio) (t : TS) : bool :=
  (0 <? _last_health_check_ts self)
  && (t - _last_health_check_ts self <? _health_check_min_interval self).

(** Every way [_retrieve_clients_health] can end. *)
Inductive retrieve_outcome (self : MultiMinio) (w : World)
    : Result (list HealthStatus) * MultiMinio * World -> Prop :=
| retrieve_cached t w1 hs :
    now w = (t, w1) -> cache_fresh self t = true ->
    _health_statuses self = Some hs ->
    retrieve_outcome self w (Return hs, self, w1)
| retrieve_assert t w1 :
    now w = (t, w1) -> cache_fresh self t = true ->
    _health_statuses self = None ->
    retrieve_outcome self w (Raise AssertionError, self, w1)
| retrieve_probed t w1 hs w2 t' w3 :
    now w = (t, w1) -> cache_fresh self t = false ->
    mtmap (_check_health_status self) (_clients self) w1 = (hs, w2) ->
    now w2 = (t', w3) ->
    retrieve_outcome self w (Return hs, set_health t' hs self, w3).

(** [self._clients[i]] as a result. *)
Definition item (self : MultiMinio) (i : nat) : Result Minio :=
  match nth_error (_clients self) i with
  | Some client => Return client
  | None => Raise IndexError
  end.

(** What a finished search has done to the object. *)
Record search_post (self self' : MultiMinio) (r : Result Minio) : Prop := {
  search_config : same_config self self';
  search_fail_ts : _current_fail_ts self' = _current_fail_ts self;
  search_all_down : forall m, r = Raise (MinioException m) ->
    _current_client_index self' = _current_client_index self;
  search_raised : forall e, r = Raise e ->
    e = AssertionError \/ e = IndexError \/
    exists down_time, e = MinioException (AllClientsDown down_time);
  search_moved :
    _current_client_index self' <> _current_client_index self ->
    exists hs, _health_statuses self' = Some hs /\
               first_healthy hs = Some (_current_client_index self');
  search_returned : forall client, r = Return client ->
    exists hs, _health_statuses self' = Some hs /\
               first_healthy hs = Some (_current_client_index self') /\
               nth_error (_clients self') (_current_client_index self')
                 = Some client
}.

(** The test that sends [_get_current_client] to the search. *)
Definition heartbeat_expired (self : MultiMinio) (t : TS) : bool :=
  (0 <? _current_client_index self)%nat
  && (_health_check_heartbeat self <? t - _last_health_check_ts self).

(** The two [except ...: raise] clauses. *)
Definition reraised (e : PyException) : bool :=
  is_S3Error e || is_InvalidResponseError e.

(** The exception raised after the dispatcher's loop. *)
Definition exhausted (func : Call) (self : MultiMinio) : PyException :=
  MinioException
    (FailedToExecute (func_name func) (call_args func) (call_kwargs func)
       (_max_try_timeout self)).

End Facade.

(** ** A scripted environment

    The environment of the unit tests: a clock that replays a list of
    readings, a patched [requests.get] with a [side_effect] list, and
    clients whose methods replay a [side_effect] list each.  It records
    the calls made to [requests.get] and to the clients. *)

Record Script : Type := mkScript {
  clock : list TS;              (* readings still to come *)
  resting : TS;                 (* the last reading; repeated once [clock] is used up *)
  http : list HttpResult;       (* [mock_get.side_effect], as long as it lasts *)
  side_effects : list (string * list CallOutcome);   (* per client URL *)
  http_calls : list (string * TS);   (* [mock_get] calls: URL and timeout *)
  method_calls : list (string * string)   (* client URL and method name *)
}.

Definition script_now (w : Script) : TS * Script :=
  match clock w with
  | [] => (resting w, w)
  | t :: rest =>
      (t, mkScript rest t (http w) (side_effects w) (http_calls w) (method_calls w))
  end.

Definition script_get (url : string) (timeout : TS) (w : Script)
    : HttpResult * Script :=
  let calls := (http_calls w ++ [(url, timeout)])%list in
  match http w with
  | [] =>
      (HttpRaised (RequestError "no response"),
       mkScript (clock w) (resting w) [] (side_effects w) calls (method_calls w))
  | r :: rest =>
      (r, mkScript (clock w) (resting w) rest (side_effects w) calls (method_calls w))
  end.

Fixpoint pop_effect (url : string) (table : list (string * list CallOutcome))
    : CallOutcome * list (string * list CallOutcome) :=
  match table with
  | [] => (Raised (OtherException "no side effect"), [])
  | (u, effects) :: rest =>
      if String.eqb u url then
        match effects with
        | [] => (Raised (OtherException "StopIteration"), table)
        | o :: effects' => (o, (u, effects') :: rest)
        end
      else
        let (o, rest') := pop_effect url rest in (o, (u, effects) :: rest')
  end.

Definition script_call (client : Minio) (func : Call) (w : Script)
    : CallOutcome * Script :=
  let url := _get_client_url client in
  let (o, table) := pop_effect url (side_effects w) in
  (o, mkScript (clock w) (resting w) (http w) table (http_calls w)
        (method_calls w ++ [(url, func_name func)])%list).

#[export] Instance scripted : Environment Script := {
  now := script_now;
  requests_get := script_get;
  call_method := script_call;
  call_function := fun func client => script_call client func
}.

(** The fixtures of [tests/test_multiminio.py]. *)
Definition client1 : Minio := mkMinio (ParseResult "http://minio1.com").
Definition client2 : Minio := mkMinio (ParseResult "http://minio2.com").
Definition SUCCESS_HEALTH : HttpResult := Response 200.
Definition FAIL_HEALTH : HttpResult := HttpRaised (RequestError "").
Definition EXPECTED_RESULT : string := "test result".
Definition get_object : Call := mkCall "get_object" "('bucket1', 'path1/object1')" "{}".

(** [MultiMinio([client1, client2])]. *)
Definition multi_minio : MultiMinio :=
  match __init__ (default_args [client1; client2]) with
  | inr self => self
  | inl _ => mkMultiMinio [] FALLBACK 0 0 0 0 0 0%nat 0 None None
  end.

(** [test_multiminio_get_object]: client 1 fails once, the probes answer
    [FAIL_HEALTH, SUCCESS_HEALTH], client 2 answers. *)
Definition test_world : Script :=
  mkScript [1000000; 1000001; 1000002; 1000010; 1000011; 1000020; 1000021;
            1000030; 1000040; 1000050] 0
    [FAIL_HEALTH; SUCCESS_HEALTH]
    [("http://minio1.com",
      [Raised (OtherException "Client 1 failed initially");
       Returned "Client 1 Result"]);
     ("http://minio2.com", [Returned EXPECTED_RESULT])]
    [] [].

(** ** Scenarios

    Objects and environments for the concrete runs given after the
    theorems. *)

(** An environment with a clock script, a [requests.get] script and the
    two clients' side effects. *)
Definition world (readings : list TS) (responses : list HttpResult)
    (effects1 effects2 : list CallOutcome) : Script :=
  mkScript readings 0 responses
    [("http://minio1.com", effects1); ("http://minio2.com", effects2)] [] [].

(** The object [test_multiminio_get_object] ends with: index [1], snapshot
    [FAIL, 200] taken at [1000040], no failure marker. *)
Definition degraded : MultiMinio :=
  snd (fst (_execute_with_fallback 2 get_object multi_minio test_world)).

(** [MultiMinio(clients=[client1, client2], fallback_timeout=2)], as in
    [test_multiminio_both_wrong_IPs_throws_MinioException]. *)
Definition impatient : MultiMinio :=
  match __init__ (mkInitArgs [client1; client2] FALLBACK 2000
                    HEALTH_CHECK_TIMEOUT HEALTH_CHECK_HEARTBEAT
                    MAX_TRY_TIMEOUT HEALTH_CHECK_INTERVAL) with
  | inr self => self
  | inl _ => multi_minio
  end.

(** A probe round that finds client 1 down and client 2 up, read by a clock
    that ends at [1000040]. *)
Definition probe_world : Script :=
  world [1000010; 1000011; 1000020; 1000021; 1000030; 1000040]
    [FAIL_HEALTH; SUCCESS_HEALTH] [] [].

(** A probe round that finds both clients down; the clock reading after it
    is 70 seconds past [1000000]. *)
Definition outage_round : Script :=
  world [1000010; 1000011; 1000020; 1000021; 1000030; 1000040; 1070000]
    [FAIL_HEALTH; FAIL_HEALTH] [] [].

(** The same round, preceded by the reading [1000000] the search takes on
    entry. *)
Definition outage_search : Script :=
  world [1000000; 1000010; 1000011; 1000020; 1000021; 1000030; 1000040;
         1070000]
    [FAIL_HEALTH; FAIL_HEALTH] [] [].


(** Client 1 fails, the probes find client 2, and the guard is next
    evaluated 2.5 seconds after the call started. *)
Definition slow_failover_world : Script :=
  world [1000000; 1000001; 1000002; 1000010; 1000011; 1000020; 1000021;
         1000030; 1000040; 1002500]
    [FAIL_HEALTH; SUCCESS_HEALTH]
    [Raised (OtherException "connection refused")] [Returned EXPECTED_RESULT].

(** A call made on [degraded] long after its snapshot, with both clients
    down: the readings are the call's start, [_get_current_client], the
    search's entry, the retrieval, the probes and the search's check. *)
Definition first_outage : Script :=
  world [2000000; 2000000; 2000001; 2000010; 2000011; 2000020; 2000021;
         2000030; 2000040; 2070000]
    [FAIL_HEALTH; FAIL_HEALTH] [] [].

(** The environment of that call at the moment the search is entered. *)
Definition first_outage_search : Script :=
  world [2000001; 2000010; 2000011; 2000020; 2000021; 2000030; 2000040;
         2070000]
    [FAIL_HEALTH; FAIL_HEALTH] [] [].

(** The object that call leaves. *)
Definition after_first_outage : MultiMinio :=
  snd (fst (_execute_with_fallback 1 get_object degraded first_outage)).

(** A second such call, 1000 seconds later. *)
Definition second_outage : Script :=
  world [3000000; 3000000; 3000001; 3000010; 3000011; 3000020; 3000021;
         3000030; 3000040; 3070000]
    [FAIL_HEALTH; FAIL_HEALTH] [] [].


(** ** Further notions used in the statements *)

Section Notions.

Context {World : Type} {env : Environment World}.

(** The exceptions [_execute_with_fallback] lets out: one of the two the
    [except] clauses re-raise, as the wrapped method raised it, or one of
    the class's own two. *)
Inductive surfaced (func : Call) (self : MultiMinio) (w' : World)
    : PyException -> Prop :=
| surfaced_reraised e client wa :
    reraised e = true ->
    In client (_clients self) ->
    call_method client func wa = (Raised e, w') ->
    surfaced func self w' e
| surfaced_exhausted :
    surfaced func self w' (exhausted func self)
| surfaced_all_down down_time :
    _fallback_timeout self < down_time ->
    surfaced func self w' (MinioException (AllClientsDown down_time)).

(** A clock that moves on by at least [tick] at every reading, [time]
    being the last reading of a world; probes and client calls do not turn
    it back. *)
Record advancing (time : World -> TS) (tick : TS) : Prop := {
  advancing_tick : 0 < tick;
  advancing_now : forall w t w',
    now w = (t, w') -> time w + tick <= t /\ time w' = t;
  advancing_get : forall url timeout w r w',
    requests_get url timeout w = (r, w') -> time w <= time w';
  advancing_call : forall client func w o w',
    call_method client func w = (o, w') -> time w <= time w'
}.

(** Worlds in [P] stay in [P], show a clock at [limit] at most and answer
    no probe with status 200. *)
Record stalled (P : World -> Prop) (limit : TS) : Prop := {
  stalled_now : forall w, P w ->
    exists t w', now w = (t, w') /\ P w' /\ t <= limit;
  stalled_get : forall url timeout w, P w ->
    exists r w', requests_get url timeout w = (r, w') /\ P w' /\
                 r <> Response 200
}.

(** [n] turns of the search loop of [_get_next_client], counted from the
    origin [start_ts], that lead from one object and world to another: in
    each of them the snapshot retrieved has no entry with status 200 and
    the clock, read after it, is no more than [_fallback_timeout] past
    [start_ts]. *)
Inductive idle_turns (start_ts : TS)
    : nat -> MultiMinio -> World -> MultiMinio -> World -> Prop :=
| idle_done self w :
    idle_turns start_ts 0 self w self w
| idle_step n self w hs self1 w1 t w2 self' w' :
    _retrieve_clients_health self w = (Return hs, self1, w1) ->
    (forall j, ~ healthy_at hs j) ->
    now w1 = (t, w2) ->
    t - start_ts <= _fallback_timeout self ->
    idle_turns start_ts n self1 w2 self' w' ->
    idle_turns start_ts (S n) self w self' w'.

End Notions.

(** ** [__new__] and [_method_wrapper] *)

(** What [getattr(Minio, attr)] is, as far as [__new__] and
    [_method_wrapper] look at it: a plain function with its [__name__],
    another callable (a bound class method, a callable object), or a value
    that is not callable. *)
Inductive AttrValue : Type :=
| FunctionObject (__name__ : string)
| OtherCallable
| NotCallable.

(** The attributes of the [Minio] class: the names [dir(Minio)] lists, each
    with what [getattr(Minio, name)] gives. *)
Definition ClassDict : Type := list (string * AttrValue).

Definition dir (cls : ClassDict) : list string := map fst cls.

Fixpoint getattr_class (cls : ClassDict) (name : string) : option AttrValue :=
  match cls with
  | [] => None
  | (n, v) :: rest => if String.eqb n name then Some v else getattr_class rest name
  end.

Definition callable (v : option AttrValue) : bool :=
  match v with
  | Some (FunctionObject _) => true
  | Some OtherCallable => true
  | _ => false
  end.

(** [isinstance(method, FunctionType)], [FunctionType] being
    [Minio.__init__.__class__]. *)
Definition isinstance_FunctionType (method : AttrValue) : bool :=
  match method with FunctionObject _ => true | _ => false end.

(** [[attr for attr in dir(Minio)
      if callable(getattr(Minio, attr)) and not attr.startswith("_")]]. *)
Definition public_methods (cls : ClassDict) : list string :=
  filter (fun attr => callable (getattr_class cls attr)
                      && negb (String.prefix "_" attr))
    (dir cls).

(** [_method_wrapper]: the assertion, then the closure [wrapper], kept as
    the [__name__] of the [method] it holds; calling it is [wrapper] above
    on a [Call] of that name. *)
Definition _method_wrapper (method : AttrValue) : PyException + string :=
  match method with
  | FunctionObject name => inr name
  | _ => inl AssertionError
  end.

(** The instance's own attributes, assigned by [setattr]. *)
Definition InstanceDict : Type := list (string * string).

Fixpoint setattr (instance : InstanceDict) (name value : string)
    : InstanceDict :=
  match instance with
  | [] => [(name, value)]
  | (n, v) :: rest =>
      if String.eqb n name then (n, value) :: rest
      else (n, v) :: setattr rest name value
  end.

Fixpoint getattr_instance (instance : InstanceDict) (name : string)
    : option string :=
  match instance with
  | [] => None
  | (n, v) :: rest =>
      if String.eqb n name then Some v else getattr_instance rest name
  end.

(** [for method_name in public_methods: ...]. *)
Fixpoint wrap_methods (cls : ClassDict) (names : list string)
    (instance : InstanceDict) : PyException + InstanceDict :=
  match names with
  | [] => inr instance
  | method_name :: rest =>
      match getattr_class cls method_name with
      | None => inl (OtherException "AttributeError")
      | Some method =>
          match _method_wrapper method with
          | inl e => inl e
          | inr wrapped => wrap_methods cls rest (setattr instance method_name wrapped)
          end
      end
  end.

Definition __new__ (cls : ClassDict) : PyException + InstanceDict :=
  wrap_methods cls (public_methods cls) [].

(** ** An environment with an advancing clock

    The world is the time of the last reading; every reading is one
    millisecond later than the one before, every probe and every client
    call fails. *)
Definition ticking : Environment TS := {|
  now := fun w => (w + 1, w + 1);
  requests_get := fun _ _ w => (HttpRaised (RequestError "unreachable"), w);
  call_method := fun _ _ w => (Raised (OtherException "unreachable"), w);
  call_function := fun _ _ w => (Raised (OtherException "unreachable"), w)
|}.

(** An object with [fallback_timeout] at 8 ms and the other delays in
    proportion. *)
Definition hasty : MultiMinio :=
  match __init__ (mkInitArgs [client1; client2] FALLBACK 8 1 4 8 2) with
  | inr self => self
  | inl _ => multi_minio
  end.

(** A scripted environment whose scripts are used up: the clock rests at
    [reading] and [requests.get] raises. *)
Definition frozen (reading : TS) : Script := mkScript [] reading [] [] [] [].

(** ** More scenarios *)

(** Client 1 answers at once. *)
Definition nominal_world : Script :=
  world [1000000; 1000001; 1000002] [] [Returned EXPECTED_RESULT] [].

(** [_get_current_client] on [degraded] long after its snapshot, both
    clients down. *)
Definition recheck_outage : Script :=
  world [2000000; 2000001; 2000010; 2000011; 2000020; 2000021; 2000030;
         2000040; 2070000]
    [FAIL_HEALTH; FAIL_HEALTH] [] [].

(** The same, both clients up again. *)
Definition recheck_recovered : Script :=
  world [2000000; 2000001; 2000010; 2000011; 2000020; 2000021; 2000030;
         2000040]
    [SUCCESS_HEALTH; SUCCESS_HEALTH] [] [].

(** A probe answered with 503. *)
Definition unavailable_world : Script :=
  world [1000011; 1000020] [Response 503] [] [].

(** The object [impatient] after the call of [slow_failover_world]: index
    [1], failure marker [1000000] still set. *)
Definition stale : MultiMinio :=
  snd (fst (_execute_with_fallback 2 get_object impatient slow_failover_world)).

(** A call on [stale] 100 s later: client 2 fails and both probes fail. *)
Definition stale_world : Script :=
  world [1100000; 1100001; 1100002; 1100010; 1100011; 1100020; 1100021;
         1100030; 1100040; 1100050]
    [FAIL_HEALTH; FAIL_HEALTH] []
    [Raised (OtherException "connection refused")].

(** The scripted worlds whose scripts are used up, resting at [reading]. *)
Definition used_up (reading : TS) (w : Script) : Prop :=
  clock w = [] /\ http w = [] /\ resting w = reading.

(** A class with two public methods, a private one and a data attribute. *)
Definition minio_class : ClassDict :=
  [("_url_open", FunctionObject "_url_open");
   ("get_object", FunctionObject "get_object");
   ("put_object", FunctionObject "put_object");
   ("region", NotCallable)].

(** ** Scenarios of the search and of a re-raised error *)

(** The search entered on [stale] 100 s after its marker: the readings are
    those of the retrieval, the two probes and the check of the loop. *)
Definition stale_search : Script :=
  world [1100010; 1100011; 1100020; 1100021; 1100030; 1100040; 1100050]
    [FAIL_HEALTH; FAIL_HEALTH] [] [].

(** Client 1 fails, the probes find client 2, and client 2 answers
    "no such key". *)
Definition failover_no_such_key : Script :=
  world [1000000; 1000001; 1000002; 1000010; 1000011; 1000020; 1000021;
         1000030; 1000040; 1000050]
    [FAIL_HEALTH; SUCCESS_HEALTH]
    [Raised (OtherException "Client 1 failed initially")]
    [Raised (S3Error "NoSuchKey")].

(** ** The scan *)

Lemma is_healthy_iff (h : HealthStatus) :
  is_healthy h = true <-> status_code h = inl 200.
Proof.
  unfold is_healthy. destruct (status_code h) as [code | e].
  - rewrite Z.eqb_eq. split; intro H; [now subst | now inversion H].
  - split; discriminate.
Qed.

Lemma scan_from_some (hs : list HealthStatus) : forall k i,
  scan_from k hs = Some i ->
  (k <= i)%nat /\ healthy_at hs (i - k) /\
  forall j, (j < i - k)%nat -> ~ healthy_at hs j.
Proof.
  induction hs as [| h rest IH]; intros k i Hscan; simpl in Hscan.
  - discriminate.
  - destruct (is_healthy h) eqn:Hh.
    + inversion Hscan; subst i. rewrite Nat.sub_diag. repeat split.
      * lia.
      * exists h. split; [reflexivity | now apply is_healthy_iff].
      * intros j Hj. lia.
    + apply IH in Hscan as (Hle & Hat & Hmin).
      replace (i - k)%nat with (S (i - S k)) by lia.
      repeat split.
      * lia.
      * exact Hat.
      * intros [| j] Hj [h' [Hnth Hcode]]; simpl in Hnth.
        -- inversion Hnth; subst h'.
           apply is_healthy_iff in Hcode. congruence.
        -- apply (Hmin j); [lia | now exists h'].
Qed.

Lemma scan_from_none (hs : list HealthStatus) : forall k,
  scan_from k hs = None <-> forall j, ~ healthy_at hs j.
Proof.
  induction hs as [| h rest IH]; intro k; simpl.
  - split; [| reflexivity].
    intros _ j [h [Hnth _]]. destruct j; discriminate.
  - destruct (is_healthy h) eqn:Hh.
    + split; [discriminate |]. intro Hnone. exfalso.
      apply (Hnone 0%nat). exists h. split; [reflexivity | now apply is_healthy_iff].
    + rewrite IH. split.
      * intros Hrest [| j] [h' [Hnth Hcode]]; simpl in Hnth.
        -- inversion Hnth; subst h'. apply is_healthy_iff in Hcode. congruence.
        -- apply (Hrest j). now exists h'.
      * intros Hall j Hj. apply (Hall (S j)). exact Hj.
Qed.

Lemma first_healthy_some (hs : list HealthStatus) (i : nat) :
  first_healthy hs = Some i <-> first_healthy_at hs i.
Proof.
  unfold first_healthy. split.
  - intro Hscan. apply scan_from_some in Hscan as (_ & Hat & Hmin).
    rewrite Nat.sub_0_r in *. now split.
  - intros [Hat Hmin].
    destruct (scan_from 0 hs) as [k |] eqn:Hscan.
    + apply scan_from_some in Hscan as (_ & Hat' & Hmin').
      rewrite Nat.sub_0_r in *.
      destruct (Nat.lt_trichotomy k i) as [Hlt | [Heq | Hgt]].
      * exfalso. now apply (Hmin k).
      * now subst.
      * exfalso. now apply (Hmin' i).
    + exfalso. apply (proj1 (scan_from_none hs 0%nat) Hscan i Hat).
Qed.

Lemma first_healthy_none (hs : list HealthStatus) :
  first_healthy hs = None <-> forall j, ~ healthy_at hs j.
Proof. apply scan_from_none. Qed.

Lemma healthy_at_bound (hs : list HealthStatus) (i : nat) :
  healthy_at hs i -> (i < List.length hs)%nat.
Proof.
  intros [h [Hnth _]]. apply nth_error_Some. congruence.
Qed.

(** A snapshot with a healthy entry has a first one. *)
Lemma first_healthy_exists (hs : list HealthStatus) (j : nat) :
  healthy_at hs j -> exists i, first_healthy hs = Some i.
Proof.
  intro Hj. destruct (first_healthy hs) as [i |] eqn:Hscan.
  - now exists i.
  - exfalso. apply (proj1 (first_healthy_none hs) Hscan j Hj).
Qed.

Section Properties.

Context {World : Type} {env : Environment World}.

(** Unfolds the monad's plumbing. *)
Ltac plumbing :=
  unfold bind, get_self, modify, lift, ret, raise in *; cbn beta iota in *.

Lemma same_config_refl (self : MultiMinio) : same_config self self.
Proof. repeat split. Qed.

Lemma same_config_trans (a b c : MultiMinio) :
  same_config a b -> same_config b c -> same_config a c.
Proof.
  unfold same_config. intros Hab Hbc.
  destruct Hab as (A1 & A2 & A3 & A4 & A5 & A6 & A7).
  destruct Hbc as (B1 & B2 & B3 & B4 & B5 & B6 & B7).
  repeat split; congruence.
Qed.

(** ** The probe round *)

Lemma mtmap_length {A B} (f : A -> World -> B * World) (xs : list A) :
  forall w, List.length (fst (mtmap f xs w)) = List.length xs.
Proof.
  induction xs as [| x rest IH]; intro w; simpl.
  - reflexivity.
  - destruct (f x w) as [y w1]. specialize (IH w1).
    destruct (mtmap f rest w1) as [ys w2]. simpl in *. now rewrite IH.
Qed.

(** ** [_retrieve_clients_health] *)

Lemma cache_fresh_iff (self : MultiMinio) (t : TS) :
  cache_fresh self t = true <->
  0 < _last_health_check_ts self /\
  t - _last_health_check_ts self < _health_check_min_interval self.
Proof.
  unfold cache_fresh. rewrite andb_true_iff, !Z.ltb_lt. reflexivity.
Qed.

Lemma retrieve_hit (self : MultiMinio) (w w1 : World) (t : TS)
    (hs : list HealthStatus) :
  now w = (t, w1) ->
  cache_fresh self t = true ->
  _health_statuses self = Some hs ->
  _retrieve_clients_health self w = (Return hs, self, w1).
Proof.
  intros Hnow Hfresh Hsnap. unfold _retrieve_clients_health. plumbing.
  rewrite Hnow. unfold cache_fresh in Hfresh. rewrite Hfresh, Hsnap.
  reflexivity.
Qed.

Lemma retrieve_hit_unset (self : MultiMinio) (w w1 : World) (t : TS) :
  now w = (t, w1) ->
  cache_fresh self t = true ->
  _health_statuses self = None ->
  _retrieve_clients_health self w = (Raise AssertionError, self, w1).
Proof.
  intros Hnow Hfresh Hsnap. unfold _retrieve_clients_health. plumbing.
  rewrite Hnow. unfold cache_fresh in Hfresh. rewrite Hfresh, Hsnap.
  reflexivity.
Qed.

Lemma retrieve_miss (self : MultiMinio) (w w1 w2 w3 : World) (t t' : TS)
    (hs : list HealthStatus) :
  now w = (t, w1) ->
  cache_fresh self t = false ->
  mtmap (_check_health_status self) (_clients self) w1 = (hs, w2) ->
  now w2 = (t', w3) ->
  _retrieve_clients_health self w = (Return hs, set_health t' hs self, w3).
Proof.
  intros Hnow Hstale Hprobe Hnow'. unfold _retrieve_clients_health. plumbing.
  rewrite Hnow. unfold cache_fresh in Hstale. rewrite Hstale, Hprobe, Hnow'.
  reflexivity.
Qed.

Lemma retrieve_cases (self : MultiMinio) (w : World) :
  retrieve_outcome self w (_retrieve_clients_health self w).
Proof.
  destruct (now w) as [t w1] eqn:Hnow.
  destruct (cache_fresh self t) eqn:Hfresh.
  - destruct (_health_statuses self) as [hs |] eqn:Hsnap.
    + rewrite (retrieve_hit _ _ _ _ _ Hnow Hfresh Hsnap).
      now apply retrieve_cached with t.
    + rewrite (retrieve_hit_unset _ _ _ _ Hnow Hfresh Hsnap).
      now apply retrieve_assert with t.
  - destruct (mtmap (_check_health_status self) (_clients self) w1)
      as [hs w2] eqn:Hprobe.
    destruct (now w2) as [t' w3] eqn:Hnow'.
    rewrite (retrieve_miss _ _ _ _ _ _ _ _ Hnow Hfresh Hprobe Hnow').
    now apply retrieve_probed with t w1 w2.
Qed.

(** What a retrieval leaves alone, and what it returns. *)
Lemma retrieve_frame (self self' : MultiMinio) (w w' : World)
    (r : Result (list HealthStatus)) :
  _retrieve_clients_health self w = (r, self', w') ->
  same_config self self' /\
  _current_client_index self' = _current_client_index self /\
  _current_fail_ts self' = _current_fail_ts self /\
  r <> OutOfFuel /\
  (forall e, r = Raise e -> e = AssertionError) /\
  forall hs, r = Return hs -> _health_statuses self' = Some hs.
Proof.
  intro Hrun. pose proof (retrieve_cases self w) as Hcase.
  rewrite Hrun in Hcase.
  inversion Hcase; subst.
  - split; [apply same_config_refl |]. repeat split; try discriminate.
    intros hs' Heq. inversion Heq; subst. assumption.
  - split; [apply same_config_refl |]. repeat split; try discriminate.
    intros e Heq. now inversion Heq.
  - split; [repeat split |]. repeat split; try discriminate.
    intros hs' Heq. inversion Heq; subst. reflexivity.
Qed.

(** Under the invariant a retrieval returns an aligned snapshot and keeps
    the invariant. *)
Lemma retrieve_wf (self : MultiMinio) (w : World) :
  wf self = true ->
  exists hs self' w',
    _retrieve_clients_health self w = (Return hs, self', w') /\
    wf self' = true /\
    List.length hs = List.length (_clients self).
Proof.
  intro Hwf. pose proof (retrieve_cases self w) as Hcase.
  unfold wf in Hwf. apply andb_true_iff in Hwf as [Hwf Himp].
  apply andb_true_iff in Hwf as [Hidx Halign].
  inversion Hcase as [t w1 hs Hnow Hfresh Hsnap Heq
                     | t w1 Hnow Hfresh Hsnap Heq
                     | t w1 hs w2 t' w3 Hnow Hstale Hprobe Hnow' Heq].
  - exists hs, self, w1. split; [reflexivity |]. split.
    + unfold wf. now rewrite Hidx, Halign, Himp.
    + unfold snapshot_aligned in Halign. rewrite Hsnap in Halign.
      now apply Nat.eqb_eq.
  - exfalso. apply cache_fresh_iff in Hfresh as [Hpos _].
    apply Z.ltb_lt in Hpos. rewrite Hpos in Himp.
    unfold has_snapshot in Himp. rewrite Hsnap in Himp. discriminate.
  - exists hs, (set_health t' hs self), w3. split; [reflexivity |].
    assert (Hlen : List.length hs = List.length (_clients self)).
    { pose proof (mtmap_length (_check_health_status self) (_clients self) w1)
        as Hl. now rewrite Hprobe in Hl. }
    split; [| exact Hlen].
    unfold wf, snapshot_aligned, has_snapshot. simpl.
    rewrite Hidx. rewrite (proj2 (Nat.eqb_eq _ _) Hlen).
    now destruct (0 <? t').
Qed.

(** ** [_get_next_client] *)

(** One turn of the [while True] loop. *)
Lemma next_client_loop_unfold (fuel : nat) (start_ts : TS)
    (self : MultiMinio) (w : World) :
  next_client_loop (S fuel) start_ts self w =
  match _retrieve_clients_health self w with
  | (Return hs, self1, w1) =>
      match first_healthy hs with
      | Some i => (item self1 i, set_current_client_index i self1, w1)
      | None =>
          let (t, w2) := now w1 in
          if _fallback_timeout self1 <? t - start_ts
          then (Raise (MinioException (AllClientsDown (t - start_ts))), self1, w2)
          else next_client_loop fuel start_ts self1 w2
      end
  | (Raise e, self1, w1) => (Raise e, self1, w1)
  | (OutOfFuel, self1, w1) => (OutOfFuel, self1, w1)
  end.
Proof.
  simpl. unfold bind at 1.
  destruct (_retrieve_clients_health self w) as [[[hs | e |] self1] w1];
    try reflexivity.
  destruct (first_healthy hs) as [i |].
  - unfold current_client_item, item. plumbing. simpl.
    now destruct (nth_error (_clients self1) i).
  - plumbing. destruct (now w1) as [t w2].
    now destruct (_fallback_timeout self1 <? t - start_ts).
Qed.

Lemma next_client_loop_post (fuel : nat) (start_ts : TS) :
  forall self w r self' w',
    next_client_loop fuel start_ts self w = (r, self', w') ->
    search_post self self' r.
Proof.
  induction fuel as [| fuel IH]; intros self w r self' w' Hrun.
  - simpl in Hrun. inversion Hrun; subst.
    constructor; try reflexivity; try discriminate.
    + apply same_config_refl.
    + intro Hne. now contradiction Hne.
  - rewrite next_client_loop_unfold in Hrun.
    destruct (_retrieve_clients_health self w) as [[r0 self1] w1] eqn:Hget.
    apply retrieve_frame in Hget as (Hcfg & Hidx & Hfail & Hfuel & Hexc & Hsnap).
    destruct r0 as [hs | e |].
    + specialize (Hsnap hs eq_refl).
      destruct (first_healthy hs) as [i |] eqn:Hscan.
      * inversion Hrun; subst. constructor; simpl.
        -- exact Hcfg.
        -- exact Hfail.
        -- unfold item. intros m Hm.
           destruct (nth_error (_clients self1) i); discriminate.
        -- unfold item. intros e He.
           destruct (nth_error (_clients self1) i); inversion He. auto.
        -- intros _. now exists hs.
        -- unfold item. intros client Hc. exists hs.
           destruct (nth_error (_clients self1) i) eqn:Hnth; inversion Hc.
           now subst.
      * destruct (now w1) as [t w2].
        destruct (_fallback_timeout self1 <? t - start_ts).
        -- inversion Hrun; subst. constructor; try discriminate.
           ++ exact Hcfg.
           ++ exact Hfail.
           ++ intros _ _. exact Hidx.
           ++ intros e He. inversion He. right. right. eauto.
           ++ intro Hne. now contradiction Hne.
        -- apply IH in Hrun. destruct Hrun as [C F A Rs Mv R].
           constructor.
           ++ eapply same_config_trans; eassumption.
           ++ congruence.
           ++ intros m Hm. rewrite (A m Hm). exact Hidx.
           ++ exact Rs.
           ++ intro Hne. apply Mv. congruence.
           ++ exact R.
    + inversion Hrun; subst. constructor; try discriminate.
      * exact Hcfg.
      * exact Hfail.
      * intros _ _. exact Hidx.
      * intros e' He. inversion He; subst. left. now apply Hexc.
      * intro Hne. now contradiction Hne.
    + now contradiction Hfuel.
Qed.

(** The search keeps the invariant and, under it, never raises
    [IndexError] or [AssertionError]. *)
Lemma next_client_loop_wf (fuel : nat) (start_ts : TS) :
  forall self w r self' w',
    wf self = true ->
    next_client_loop fuel start_ts self w = (r, self', w') ->
    wf self' = true /\ r <> Raise IndexError /\ r <> Raise AssertionError.
Proof.
  induction fuel as [| fuel IH]; intros self w r self' w' Hwf Hrun.
  - simpl in Hrun. inversion Hrun; subst. repeat split; try discriminate.
    exact Hwf.
  - rewrite next_client_loop_unfold in Hrun.
    destruct (retrieve_wf self w Hwf) as (hs & self1 & w1 & Hget & Hwf1 & Hlen).
    rewrite Hget in Hrun.
    pose proof (retrieve_frame _ _ _ _ _ Hget) as (Hcfg & _).
    destruct (first_healthy hs) as [i |] eqn:Hscan.
    + apply first_healthy_some in Hscan as [Hat _].
      apply healthy_at_bound in Hat.
      assert (Hi : (i < List.length (_clients self1))%nat).
      { destruct Hcfg as (Hc & _). rewrite Hc. lia. }
      inversion Hrun; subst. split.
      * unfold wf in *. simpl.
        apply andb_true_iff in Hwf1 as [Hwf1 Himp].
        apply andb_true_iff in Hwf1 as [_ Hal].
        unfold snapshot_aligned, has_snapshot in *. simpl.
        rewrite Hal, Himp. now rewrite (proj2 (Nat.ltb_lt _ _) Hi).
      * unfold item. apply nth_error_Some in Hi.
        destruct (nth_error (_clients self1) i); [| congruence].
        split; discriminate.
    + destruct (now w1) as [t w2].
      destruct (_fallback_timeout self1 <? t - start_ts).
      * inversion Hrun; subst. repeat split; try discriminate. exact Hwf1.
      * eapply IH; eassumption.
Qed.

(** [self._current_fail_ts or now()] only reads. *)
Lemma fail_ts_or_now_cases (self : MultiMinio) (w : World) :
  exists start_ts w0,
    fail_ts_or_now self w = (Return start_ts, self, w0) /\
    ((exists t, _current_fail_ts self = Some t /\ t <> 0 /\
                start_ts = t /\ w0 = w)
     \/ ((_current_fail_ts self = None \/ _current_fail_ts self = Some 0) /\
         now w = (start_ts, w0))).
Proof.
  unfold fail_ts_or_now. plumbing.
  destruct (_current_fail_ts self) as [t |] eqn:Hfail.
  - destruct (t =? 0) eqn:Hz.
    + apply Z.eqb_eq in Hz. subst t.
      destruct (now w) as [t0 w0] eqn:Hnow.
      exists t0, w0. split; [reflexivity |]. right. split; [now right | reflexivity].
    + apply Z.eqb_neq in Hz. exists t, w. split; [reflexivity |].
      left. now exists t.
  - destruct (now w) as [t0 w0] eqn:Hnow.
    exists t0, w0. split; [reflexivity |]. right. split; [now left | reflexivity].
Qed.

Lemma get_next_client_unfold (fuel : nat) (self : MultiMinio) (w w0 : World)
    (start_ts : TS) :
  fail_ts_or_now self w = (Return start_ts, self, w0) ->
  _get_next_client fuel self w = next_client_loop fuel start_ts self w0.
Proof.
  intro Hstart. unfold _get_next_client, bind. now rewrite Hstart.
Qed.

Lemma get_next_client_post (fuel : nat) (self self' : MultiMinio)
    (w w' : World) (r : Result Minio) :
  _get_next_client fuel self w = (r, self', w') ->
  search_post self self' r.
Proof.
  destruct (fail_ts_or_now_cases self w) as (start_ts & w0 & Hstart & _).
  rewrite (get_next_client_unfold fuel _ _ _ _ Hstart).
  apply next_client_loop_post.
Qed.

Lemma get_next_client_wf (fuel : nat) (self self' : MultiMinio)
    (w w' : World) (r : Result Minio) :
  wf self = true ->
  _get_next_client fuel self w = (r, self', w') ->
  wf self' = true /\ r <> Raise IndexError /\ r <> Raise AssertionError.
Proof.
  destruct (fail_ts_or_now_cases self w) as (start_ts & w0 & Hstart & _).
  rewrite (get_next_client_unfold fuel _ _ _ _ Hstart).
  apply next_client_loop_wf.
Qed.

(** ** [_get_current_client] *)

Lemma get_current_client_unfold (fuel : nat) (self : MultiMinio) (w : World) :
  _get_current_client fuel self w =
  let (t, w1) := now w in
  if heartbeat_expired self t
  then _get_next_client fuel self w1
  else (item self (_current_client_index self), self, w1).
Proof.
  unfold _get_current_client, heartbeat_expired, current_client_item, item.
  plumbing. destruct (now w) as [t w1].
  destruct ((0 <? _current_client_index self)%nat
            && (_health_check_heartbeat self <? t - _last_health_check_ts self));
    [reflexivity |].
  now destruct (nth_error (_clients self) (_current_client_index self)).
Qed.

Lemma wf_item (self : MultiMinio) :
  wf self = true ->
  exists client,
    nth_error (_clients self) (_current_client_index self) = Some client.
Proof.
  unfold wf. intro Hwf. apply andb_true_iff in Hwf as [Hwf _].
  apply andb_true_iff in Hwf as [Hidx _]. apply Nat.ltb_lt in Hidx.
  apply nth_error_Some in Hidx.
  destruct (nth_error (_clients self) (_current_client_index self)) as [c |].
  - now exists c.
  - congruence.
Qed.

Lemma get_current_client_post (fuel : nat) (self self' : MultiMinio)
    (w w' : World) (r : Result Minio) :
  _get_current_client fuel self w = (r, self', w') ->
  same_config self self' /\
  _current_fail_ts self' = _current_fail_ts self /\
  forall e, r = Raise e ->
    e = AssertionError \/ e = IndexError \/
    exists down_time, e = MinioException (AllClientsDown down_time).
Proof.
  rewrite get_current_client_unfold. destruct (now w) as [t w1].
  destruct (heartbeat_expired self t).
  - intro Hrun. apply get_next_client_post in Hrun.
    destruct Hrun as [C F _ Rs _ _]. auto.
  - intro Hrun. inversion Hrun; subst.
    split; [apply same_config_refl |]. split; [reflexivity |].
    unfold item. intros e He.
    destruct (nth_error (_clients self') (_current_client_index self'));
      inversion He. auto.
Qed.

Lemma get_current_client_wf (fuel : nat) (self self' : MultiMinio)
    (w w' : World) (r : Result Minio) :
  wf self = true ->
  _get_current_client fuel self w = (r, self', w') ->
  wf self' = true /\ r <> Raise IndexError /\ r <> Raise AssertionError.
Proof.
  intro Hwf. rewrite get_current_client_unfold. destruct (now w) as [t w1].
  destruct (heartbeat_expired self t).
  - now apply get_next_client_wf.
  - intro Hrun. inversion Hrun; subst. split; [exact Hwf |].
    destruct (wf_item _ Hwf) as [c Hc]. unfold item. rewrite Hc.
    split; discriminate.
Qed.

(** ** [_execute_with_fallback] *)

(** One turn of the dispatcher's [while] loop. *)
Lemma fallback_loop_unfold (fuel : nat) (func : Call) (start_try_ts : TS)
    (current_client : Minio) (self : MultiMinio) (w : World) :
  fallback_loop (S fuel) func start_try_ts current_client self w =
  let (t, w1) := now w in
  if t - start_try_ts <? _fallback_timeout self
  then
    match call_method current_client func w1 with
    | (Returned result, w2) =>
        (Return result, set_current_fail_ts None self, w2)
    | (Raised e, w2) =>
        if reraised e then (Raise e, self, w2)
        else
          match _get_next_client fuel (mark_failure start_try_ts self) w2 with
          | (Return next_client, self', w3) =>
              fallback_loop fuel func start_try_ts next_client self' w3
          | (Raise e', self', w3) => (Raise e', self', w3)
          | (OutOfFuel, self', w3) => (OutOfFuel, self', w3)
          end
    end
  else (Raise (exhausted func self), self, w1).
Proof.
  simpl. unfold invoke, MAX_COMPATIBILITY, reraised, exhausted. plumbing.
  destruct (now w) as [t w1].
  destruct (t - start_try_ts <? _fallback_timeout self); [| reflexivity].
  destruct (call_method current_client func w1) as [[result | e] w2];
    [reflexivity |].
  destruct (is_S3Error e); [reflexivity |].
  destruct (is_InvalidResponseError e); [reflexivity |].
  simpl.
  now destruct (_get_next_client fuel (mark_failure start_try_ts self) w2)
    as [[[next_client | e' |] self'] w3].
Qed.

Lemma mark_failure_config (start_try_ts : TS) (self : MultiMinio) :
  same_config self (mark_failure start_try_ts self).
Proof.
  unfold mark_failure. destruct (_current_fail_ts self); repeat split.
Qed.

Lemma mark_failure_wf (start_try_ts : TS) (self : MultiMinio) :
  wf (mark_failure start_try_ts self) = wf self.
Proof.
  unfold mark_failure. now destruct (_current_fail_ts self).
Qed.

(** The dispatcher's terminal error is raised by the statement after the
    loop only: it names the call and carries [_max_try_timeout]. *)
Lemma fallback_loop_post (fuel : nat) (func : Call) (start_try_ts : TS) :
  forall current_client self w r self' w',
    fallback_loop fuel func start_try_ts current_client self w = (r, self', w') ->
    same_config self self' /\
    forall name args kwargs within,
      r = Raise (MinioException (FailedToExecute name args kwargs within)) ->
      r = Raise (exhausted func self) /\
      exists w0 t, now w0 = (t, w') /\
                   _fallback_timeout self <= t - start_try_ts.
Proof.
  induction fuel as [| fuel IH]; intros c self w r self' w' Hrun.
  - simpl in Hrun. inversion Hrun; subst.
    split; [apply same_config_refl | discriminate].
  - rewrite fallback_loop_unfold in Hrun.
    destruct (now w) as [t w1] eqn:Hnow.
    destruct (t - start_try_ts <? _fallback_timeout self) eqn:Hguard.
    + destruct (call_method c func w1) as [[result | e] w2] eqn:Hcall.
      * inversion Hrun; subst. split; [repeat split | discriminate].
      * destruct (reraised e) eqn:Hre.
        -- inversion Hrun; subst. split; [apply same_config_refl |].
           intros name args kwargs within He. inversion He; subst.
           discriminate.
        -- destruct (_get_next_client fuel (mark_failure start_try_ts self) w2)
             as [[r1 self1] w3] eqn:Hnext.
           apply get_next_client_post in Hnext.
           destruct Hnext as [C _ _ Rs _ _].
           assert (Hcfg : same_config self self1).
           { eapply same_config_trans; [apply mark_failure_config | exact C]. }
           destruct r1 as [next_client | e' |].
           ++ apply IH in Hrun as [C' Hmsg]. split.
              ** eapply same_config_trans; eassumption.
              ** intros name args kwargs within He.
                 destruct (Hmsg _ _ _ _ He) as [Hr (w0 & t0 & Hnow0 & Hle)].
                 destruct Hcfg as (_ & _ & Hfb & _ & _ & Hmax & _).
                 split.
                 --- rewrite Hr. unfold exhausted. now rewrite Hmax.
                 --- exists w0, t0. split; [exact Hnow0 |]. now rewrite <- Hfb.
           ++ inversion Hrun; subst. split; [exact Hcfg |].
              intros name args kwargs within He. inversion He; subst.
              destruct (Rs _ eq_refl) as [H | [H | [d H]]]; discriminate.
           ++ inversion Hrun; subst. split; [exact Hcfg | discriminate].
    + inversion Hrun; subst. split; [apply same_config_refl |].
      intros name args kwargs within _. split; [reflexivity |].
      exists w, t. split; [exact Hnow |]. now apply Z.ltb_ge in Hguard.
Qed.

Lemma fallback_loop_wf (fuel : nat) (func : Call) (start_try_ts : TS) :
  forall current_client self w r self' w',
    wf self = true ->
    fallback_loop fuel func start_try_ts current_client self w = (r, self', w') ->
    wf self' = true.
Proof.
  induction fuel as [| fuel IH]; intros c self w r self' w' Hwf Hrun.
  - simpl in Hrun. now inversion Hrun; subst.
  - rewrite fallback_loop_unfold in Hrun.
    destruct (now w) as [t w1].
    destruct (t - start_try_ts <? _fallback_timeout self).
    + destruct (call_method c func w1) as [[result | e] w2].
      * now inversion Hrun; subst.
      * destruct (reraised e); [now inversion Hrun; subst |].
        destruct (_get_next_client fuel (mark_failure start_try_ts self) w2)
          as [[r1 self1] w3] eqn:Hnext.
        apply get_next_client_wf in Hnext as [Hwf1 _];
          [| now rewrite mark_failure_wf].
        destruct r1 as [next_client | e' |].
        -- eapply IH; eassumption.
        -- now inversion Hrun; subst.
        -- now inversion Hrun; subst.
    + now inversion Hrun; subst.
Qed.

Lemma execute_unfold (fuel : nat) (func : Call) (self : MultiMinio) (w : World) :
  _execute_with_fallback fuel func self w =
  let (start_try_ts, w1) := now w in
  match _get_current_client fuel self w1 with
  | (Return current_client, self1, w2) =>
      fallback_loop fuel func start_try_ts current_client self1 w2
  | (Raise e, self1, w2) => (Raise e, self1, w2)
  | (OutOfFuel, self1, w2) => (OutOfFuel, self1, w2)
  end.
Proof.
  unfold _execute_with_fallback. plumbing. now destruct (now w) as [t w1].
Qed.

(** ** Reachable objects satisfy the invariant *)

Lemma init_wf (a : InitArgs) (self : MultiMinio) :
  __init__ a = inr self -> wf self = true.
Proof.
  unfold __init__.
  destruct (0 <? List.length (clients a))%nat eqn:Hlen; [| discriminate].
  destruct (LoadBalanceType_eqb (load_balance_type a) FALLBACK); [| discriminate].
  destruct (health_check_interval a * 2 <=? health_check_heartbeat a);
    [| discriminate].
  destruct (health_check_timeout a * 2 <=? health_check_interval a);
    [| discriminate].
  simpl. intro H. inversion H; subst. unfold wf. simpl. now rewrite Hlen.
Qed.

Lemma execute_wf (fuel : nat) (func : Call) (self self' : MultiMinio)
    (w w' : World) (r : Result string) :
  wf self = true ->
  _execute_with_fallback fuel func self w = (r, self', w') ->
  wf self' = true.
Proof.
  intro Hwf. rewrite execute_unfold. destruct (now w) as [t w1].
  destruct (_get_current_client fuel self w1) as [[r1 self1] w2] eqn:Hcur.
  apply get_current_client_wf in Hcur as [Hwf1 _]; [| exact Hwf].
  destruct r1 as [c | e |].
  - now apply fallback_loop_wf.
  - intro H. now inversion H; subst.
  - intro H. now inversion H; subst.
Qed.

(** Each entry of a probe round is the probe of the client at its position. *)
Lemma mtmap_each {A B} (f : A -> World -> B * World) (xs : list A) :
  forall w ys w',
    mtmap f xs w = (ys, w') ->
    Forall2 (fun x y => exists wa wb, f x wa = (y, wb)) xs ys.
Proof.
  induction xs as [| x rest IH]; intros w ys w' Hrun; simpl in Hrun.
  - inversion Hrun. constructor.
  - destruct (f x w) as [y w1] eqn:Hf.
    destruct (mtmap f rest w1) as [ys' w2] eqn:Hrest.
    inversion Hrun; subst. constructor.
    + now exists w, w1.
    + eapply IH. eassumption.
Qed.

(** ** The claims *)

(** C7. [__init__] raises [AssertionError] whenever [clients] is empty, the
    mode is not [FALLBACK], [health_check_heartbeat] is below twice
    [health_check_interval], or [health_check_interval] is below twice
    [health_check_timeout]; in every other case it builds the object with
    the arguments stored, index [0], no failure marker, no snapshot and a
    zero snapshot timestamp. *)
Theorem init_asserts (a : InitArgs) :
  (rejected a <-> __init__ a = inl AssertionError) /\
  (~ rejected a <->
   exists self, __init__ a = inr self /\
     _clients self = clients a /\
     _current_client_index self = 0%nat /\
     _current_fail_ts self = None /\
     _health_statuses self = None /\
     _last_health_check_ts self = 0).
Proof.
  unfold rejected, __init__.
  destruct (clients a) as [| c cs] eqn:Hcs; cbn [negb Nat.ltb Nat.leb List.length].
  { split; split.
    - reflexivity.
    - intros _. now left.
    - intro Hn. exfalso. apply Hn. now left.
    - intros [self [H _]]. discriminate. }
  destruct (load_balance_type a) eqn:Hmode; cbn [negb LoadBalanceType_eqb];
    try (split; split;
         [ reflexivity
         | intros _; right; left; discriminate
         | intro Hn; exfalso; apply Hn; right; left; discriminate
         | intros [self [H _]]; discriminate ]).
  destruct (health_check_interval a * 2 <=? health_check_heartbeat a) eqn:Hhb;
    cbn [negb].
  2: { apply Z.leb_gt in Hhb. split; split.
       - reflexivity.
       - intros _. right. right. left. lia.
       - intro Hn. exfalso. apply Hn. right. right. left. lia.
       - intros [self [H _]]. discriminate. }
  destruct (health_check_timeout a * 2 <=? health_check_interval a) eqn:Hmi;
    cbn [negb].
  2: { apply Z.leb_gt in Hmi. split; split.
       - reflexivity.
       - intros _. right. right. right. lia.
       - intro Hn. exfalso. apply Hn. right. right. right. lia.
       - intros [self [H _]]. discriminate. }
  apply Z.leb_le in Hhb, Hmi. split; split.
  - intros [H | [H | [H | H]]]; try discriminate; try lia. now contradiction H.
  - discriminate.
  - intros _. eexists. split; [reflexivity |]. simpl. repeat split.
  - intros _ [H | [H | [H | H]]]; try discriminate; try lia. now contradiction H.
Qed.

(** C5. [_retrieve_clients_health], on an object satisfying the invariant,
    after reading the clock at [t]: when the snapshot timestamp is positive
    and the age [t - _last_health_check_ts] is below
    [_health_check_min_interval], the stored snapshot is returned, the
    object is unchanged and the environment has only had its clock read;
    otherwise every client is probed in order, and the snapshot and its
    timestamp are replaced by the probe round and the clock reading taken
    after it.  So after a retrieval that left a positive timestamp, a second
    one within the interval returns the same snapshot without probing, and
    one at or after the interval runs a new probe round. *)
Theorem retrieve_clients_health_cache (self : MultiMinio) (w w1 : World)
    (t : TS) :
  wf self = true ->
  now w = (t, w1) ->
  (0 < _last_health_check_ts self /\
   t - _last_health_check_ts self < _health_check_min_interval self ->
   exists hs, _health_statuses self = Some hs /\
     _retrieve_clients_health self w = (Return hs, self, w1)) /\
  (~ (0 < _last_health_check_ts self /\
      t - _last_health_check_ts self < _health_check_min_interval self) ->
   exists hs w2 t' w3,
     mtmap (_check_health_status self) (_clients self) w1 = (hs, w2) /\
     Forall2 (fun client h =>
                exists wa wb, _check_health_status self client wa = (h, wb))
       (_clients self) hs /\
     now w2 = (t', w3) /\
     _retrieve_clients_health self w = (Return hs, set_health t' hs self, w3) /\
     _health_statuses (set_health t' hs self) = Some hs /\
     _last_health_check_ts (set_health t' hs self) = t') /\
  (forall hs self1 w',
     _retrieve_clients_health self w = (Return hs, self1, w') ->
     0 < _last_health_check_ts self1 ->
     forall wa ta wb, now wa = (ta, wb) ->
       (ta - _last_health_check_ts self1 < _health_check_min_interval self ->
        _retrieve_clients_health self1 wa = (Return hs, self1, wb)) /\
       (_health_check_min_interval self <= ta - _last_health_check_ts self1 ->
        exists hs2 w2 t2 w3,
          mtmap (_check_health_status self1) (_clients self1) wb = (hs2, w2) /\
          now w2 = (t2, w3) /\
          _retrieve_clients_health self1 wa
            = (Return hs2, set_health t2 hs2 self1, w3))).
Proof.
  intros Hwf Hnow. split; [| split].
  - intro Hfresh. apply cache_fresh_iff in Hfresh.
    destruct (_health_statuses self) as [hs |] eqn:Hsnap.
    + exists hs. split; [reflexivity |]. now apply retrieve_hit with t.
    + exfalso. destruct (retrieve_wf self w Hwf) as (hs & s' & w' & Hget & _).
      rewrite (retrieve_hit_unset _ _ _ _ Hnow Hfresh Hsnap) in Hget.
      discriminate.
  - intro Hstale.
    assert (Hst : cache_fresh self t = false).
    { destruct (cache_fresh self t) eqn:Hc; [| reflexivity].
      apply cache_fresh_iff in Hc. contradiction. }
    destruct (mtmap (_check_health_status self) (_clients self) w1)
      as [hs w2] eqn:Hprobe.
    destruct (now w2) as [t' w3] eqn:Hnow'.
    exists hs, w2, t', w3.
    split; [reflexivity |].
    split; [eapply mtmap_each; eassumption |].
    split; [exact Hnow' |].
    split; [now apply retrieve_miss with w1 w2 t |].
    split; reflexivity.
  - intros hs self1 w' Hget Hpos wa ta wb Hnowa.
    apply retrieve_frame in Hget as (Hcfg & _ & _ & _ & _ & Hsnap).
    specialize (Hsnap hs eq_refl).
    destruct Hcfg as (_ & _ & _ & _ & _ & _ & Hmi). split.
    + intro Hage. apply retrieve_hit with ta; try assumption.
      apply cache_fresh_iff. split; [assumption | now rewrite Hmi].
    + intro Hage.
      assert (Hst : cache_fresh self1 ta = false).
      { destruct (cache_fresh self1 ta) eqn:Hc; [| reflexivity].
        apply cache_fresh_iff in Hc. lia. }
      destruct (mtmap (_check_health_status self1) (_clients self1) wb)
        as [hs2 w2] eqn:Hprobe.
      destruct (now w2) as [t2 w3] eqn:Hnow2.
      exists hs2, w2, t2, w3.
      split; [reflexivity |]. split; [exact Hnow2 |].
      now apply retrieve_miss with wb w2 ta.
Qed.

(** C6. [_get_current_client], on an object satisfying the invariant, after
    reading the clock at [t]: when the index is [0] or the snapshot age
    [t - _last_health_check_ts] does not exceed [_health_check_heartbeat],
    it returns the client at the current index and leaves the object as it
    was; when the index is positive and the age exceeds the heartbeat, it is
    [_get_next_client] run from there. *)
Theorem get_current_client_heartbeat (fuel : nat) (self : MultiMinio)
    (w w1 : World) (t : TS) :
  wf self = true ->
  now w = (t, w1) ->
  (_current_client_index self = 0%nat \/
   t - _last_health_check_ts self <= _health_check_heartbeat self ->
   exists client,
     nth_error (_clients self) (_current_client_index self) = Some client /\
     _get_current_client fuel self w = (Return client, self, w1)) /\
  ((0 < _current_client_index self)%nat /\
   _health_check_heartbeat self < t - _last_health_check_ts self ->
   _get_current_client fuel self w = _get_next_client fuel self w1).
Proof.
  intros Hwf Hnow. rewrite get_current_client_unfold, Hnow.
  unfold heartbeat_expired. split.
  - intro Hstay. destruct (wf_item _ Hwf) as [client Hc]. exists client.
    split; [exact Hc |].
    assert (Hno : (0 <? _current_client_index self)%nat
                  && (_health_check_heartbeat self
                        <? t - _last_health_check_ts self) = false).
    { apply andb_false_iff. destruct Hstay as [H0 | Hage].
      - left. now rewrite H0.
      - right. apply Z.ltb_ge. exact Hage. }
    rewrite Hno. unfold item. now rewrite Hc.
  - intros [Hidx Hage]. apply Nat.ltb_lt in Hidx. apply Z.ltb_lt in Hage.
    now rewrite Hidx, Hage.
Qed.

(** C2. In any turn of the search loop of [_get_next_client] whose
    snapshot has an entry with status 200, the index is set to the smallest
    position [i] of such an entry and the client at position [i] is
    returned at once: no clock reading and no further retrieval follow.
    The same holds of [_get_next_client] itself when that turn is its
    first. *)
Theorem next_client_first_healthy (fuel : nat) (start_ts : TS)
    (self self1 : MultiMinio) (w w1 : World) (hs : list HealthStatus)
    (j : nat) :
  wf self = true ->
  _retrieve_clients_health self w = (Return hs, self1, w1) ->
  healthy_at hs j ->
  exists i client,
    first_healthy_at hs i /\ (i <= j)%nat /\
    nth_error (_clients self) i = Some client /\
    next_client_loop (S fuel) start_ts self w
      = (Return client, set_current_client_index i self1, w1) /\
    forall w_entry,
      fail_ts_or_now self w_entry = (Return start_ts, self, w) ->
      _get_next_client (S fuel) self w_entry
        = (Return client, set_current_client_index i self1, w1).
Proof.
  intros Hwf Hget Hj.
  destruct (first_healthy_exists hs j Hj) as [i Hscan].
  pose proof (proj1 (first_healthy_some hs i) Hscan) as Hfirst.
  destruct (retrieve_wf self w Hwf) as (hs' & s' & w' & Hget' & _ & Hlen).
  rewrite Hget in Hget'. inversion Hget'; subst hs' s' w'.
  pose proof (retrieve_frame _ _ _ _ _ Hget) as ((Hcl & _) & _).
  assert (Hi : (i < List.length (_clients self))%nat).
  { destruct Hfirst as [Hat _]. apply healthy_at_bound in Hat. lia. }
  destruct (nth_error (_clients self) i) as [client |] eqn:Hnth;
    [| apply nth_error_Some in Hi; congruence].
  assert (Hloop : next_client_loop (S fuel) start_ts self w
                  = (Return client, set_current_client_index i self1, w1)).
  { rewrite next_client_loop_unfold, Hget, Hscan. unfold item.
    now rewrite Hcl, Hnth. }
  exists i, client. split; [exact Hfirst |]. split.
  - destruct (Nat.le_gt_cases i j) as [Hle | Hgt]; [exact Hle |].
    exfalso. destruct Hfirst as [_ Hmin]. now apply (Hmin j).
  - split; [exact Hnth |]. split; [exact Hloop |].
    intros w_entry Hstart.
    now rewrite (get_next_client_unfold _ _ _ _ _ Hstart).
Qed.


(** C10. When [_get_next_client] ends by raising
    [MinioException "All Minio clients are down ..."], the index is the one
    it was entered with, as are the configuration and the failure marker.
    Whatever the outcome, an index that differs from the one at entry is the
    first position with status 200 of the snapshot then stored. *)
Theorem search_all_down_keeps_index (fuel : nat) (self self' : MultiMinio)
    (w w' : World) (r : Result Minio) :
  _get_next_client fuel self w = (r, self', w') ->
  ((exists down_time, r = Raise (MinioException (AllClientsDown down_time))) ->
   _current_client_index self' = _current_client_index self /\
   _current_fail_ts self' = _current_fail_ts self /\
   same_config self self') /\
  (_current_client_index self' <> _current_client_index self ->
   exists hs, _health_statuses self' = Some hs /\
              first_healthy_at hs (_current_client_index self')).
Proof.
  intro Hrun. apply get_next_client_post in Hrun.
  destruct Hrun as [C F A _ Mv _]. split.
  - intros [d Hd]. split; [now apply (A (AllClientsDown d)) |]. now split.
  - intro Hne. destruct (Mv Hne) as (hs & Hs & Hscan).
    exists hs. split; [exact Hs |]. now apply first_healthy_some.
Qed.


(** C1. A wrapped call made with index [0]: the method raises on client 0
    an exception that is neither [S3Error] nor [InvalidResponseError], the
    snapshot the search then retrieves has its first status 200 at
    position 1, and the method returns [result] on client 1, both calls
    made while the loop guard [now() - start_try_ts < _fallback_timeout]
    holds.  Then [_execute_with_fallback] returns [result], the failure
    marker is [None] and the index is [1]; from that object, as long as the
    snapshot age does not exceed [_health_check_heartbeat],
    [_get_current_client] returns client 1 and changes nothing. *)
Theorem failover_to_second_client (fuel : nat) (func : Call)
    (self self6 : MultiMinio) (client0 client1 : Minio)
    (w w1 w2 w3 w4 w5 w6 w7 w8 : World) (t0 t1 t2 t3 start_ts : TS)
    (e : PyException) (hs : list HealthStatus) (result : string) :
  _current_client_index self = 0%nat ->
  nth_error (_clients self) 0 = Some client0 ->
  nth_error (_clients self) 1 = Some client1 ->
  now w = (t0, w1) ->
  now w1 = (t1, w2) ->
  now w2 = (t2, w3) ->
  t2 - t0 < _fallback_timeout self ->
  call_method client0 func w3 = (Raised e, w4) ->
  is_S3Error e = false ->
  is_InvalidResponseError e = false ->
  fail_ts_or_now (mark_failure t0 self) w4
    = (Return start_ts, mark_failure t0 self, w5) ->
  _retrieve_clients_health (mark_failure t0 self) w5 = (Return hs, self6, w6) ->
  first_healthy_at hs 1 ->
  now w6 = (t3, w7) ->
  t3 - t0 < _fallback_timeout self ->
  call_method client1 func w7 = (Returned result, w8) ->
  _execute_with_fallback (S (S fuel)) func self w
    = (Return result, failed_over 1 self6, w8) /\
  _current_fail_ts (failed_over 1 self6) = None /\
  _current_client_index (failed_over 1 self6) = 1%nat /\
  forall n wa ta wb,
    now wa = (ta, wb) ->
    ta - _last_health_check_ts (failed_over 1 self6)
      <= _health_check_heartbeat (failed_over 1 self6) ->
    _get_current_client n (failed_over 1 self6) wa
      = (Return client1, failed_over 1 self6, wb).
Proof.
  intros Hidx Hc0 Hc1 Hnow0 Hnow1 Hnow2 Hguard2 Hcall0 Hs3 Hinv Hstart Hget
    Hfirst Hnow3 Hguard3 Hcall1. unfold failed_over.
  pose proof (retrieve_frame _ _ _ _ _ Hget) as (Hcfg & _).
  pose proof (same_config_trans _ _ _ (mark_failure_config t0 self) Hcfg)
    as (Hcl & _ & Hfb & _).
  split; [| split; [reflexivity | split; [reflexivity |]]].
  - rewrite execute_unfold, Hnow0, get_current_client_unfold, Hnow1.
    unfold heartbeat_expired. rewrite Hidx. cbn [Nat.ltb Nat.leb andb].
    unfold item at 1. rewrite Hc0.
    rewrite fallback_loop_unfold, Hnow2.
    apply Z.ltb_lt in Hguard2. rewrite Hguard2, Hcall0.
    unfold reraised. rewrite Hs3, Hinv. cbn [orb].
    rewrite (get_next_client_unfold _ _ _ _ _ Hstart).
    rewrite next_client_loop_unfold, Hget.
    rewrite (proj2 (first_healthy_some hs 1) Hfirst).
    unfold item. rewrite Hcl, Hc1.
    rewrite fallback_loop_unfold, Hnow3.
    cbn [_fallback_timeout set_current_client_index]. rewrite Hfb.
    apply Z.ltb_lt in Hguard3. rewrite Hguard3, Hcall1. reflexivity.
  - intros n wa ta wb Hnowa Hage.
    rewrite get_current_client_unfold, Hnowa. unfold heartbeat_expired.
    apply Z.ltb_ge in Hage. rewrite Hage, andb_false_r.
    unfold item. cbn [_clients _current_client_index
      set_current_fail_ts set_current_client_index].
    now rewrite Hcl, Hc1.
Qed.

(** C9, as the code has it.  When the dispatcher's loop guard fails, that
    is when [now() - start_try_ts] is at least [_fallback_timeout], the
    loop raises the [MinioException] whose message carries the method's
    name, its [args] and [kwargs], and the configured [_max_try_timeout].
    Every "Failed to execute" error that leaves [_execute_with_fallback]
    is this one. *)
Theorem exhausted_reports_max_try_timeout (func : Call) :
  (forall fuel start_try_ts current_client self w t w1,
     now w = (t, w1) ->
     _fallback_timeout self <= t - start_try_ts ->
     fallback_loop (S fuel) func start_try_ts current_client self w
       = (Raise (MinioException
                   (FailedToExecute (func_name func) (call_args func)
                      (call_kwargs func) (_max_try_timeout self))),
          self, w1)) /\
  (forall fuel self w name args kwargs within self' w',
     _execute_with_fallback fuel func self w
       = (Raise (MinioException (FailedToExecute name args kwargs within)),
          self', w') ->
     name = func_name func /\ args = call_args func /\
     kwargs = call_kwargs func /\ within = _max_try_timeout self).
Proof.
  split.
  - intros fuel start_try_ts c self w t w1 Hnow Hlate.
    rewrite fallback_loop_unfold, Hnow.
    apply Z.ltb_ge in Hlate. now rewrite Hlate.
  - intros fuel self w name args kwargs within self' w' Hrun.
    rewrite execute_unfold in Hrun. destruct (now w) as [t0 w1].
    destruct (_get_current_client fuel self w1) as [[r1 self1] w2] eqn:Hcur.
    apply get_current_client_post in Hcur as (Hcfg & _ & Hexc).
    destruct r1 as [c | e |].
    + apply fallback_loop_post in Hrun as [_ Hmsg].
      destruct (Hmsg _ _ _ _ eq_refl) as [Hr _].
      unfold exhausted in Hr. inversion Hr; subst.
      destruct Hcfg as (_ & _ & _ & _ & _ & Hmax & _). now rewrite Hmax.
    + inversion Hrun; subst.
      destruct (Hexc _ eq_refl) as [H | [H | [d H]]]; discriminate.
    + discriminate.
Qed.

(** C8, as the code has it.  [_get_next_client] never assigns the failure
    marker.  It measures the downtime from the marker when one is set and
    is not the zero timestamp, and otherwise from the clock reading it
    takes on entry, which it keeps in a local variable only.  The marker is
    assigned by the dispatcher: on an exception that is not re-raised it
    stores the call's start timestamp when the marker is [None], keeps an
    existing marker, and then enters the search. *)
Theorem search_reads_fail_ts (fuel : nat) (self : MultiMinio) (w : World) :
  (forall r self' w',
     _get_next_client fuel self w = (r, self', w') ->
     _current_fail_ts self' = _current_fail_ts self) /\
  (forall t, _current_fail_ts self = Some t -> t <> 0 ->
     _get_next_client fuel self w = next_client_loop fuel t self w) /\
  (forall t w0, _current_fail_ts self = None -> now w = (t, w0) ->
     _get_next_client fuel self w = next_client_loop fuel t self w0) /\
  (forall start_try_ts,
     _current_fail_ts (mark_failure start_try_ts self)
       = match _current_fail_ts self with
         | None => Some start_try_ts
         | Some t => Some t
         end) /\
  (forall func start_try_ts current_client t w1 e w2,
     now w = (t, w1) ->
     t - start_try_ts < _fallback_timeout self ->
     call_method current_client func w1 = (Raised e, w2) ->
     is_S3Error e = false -> is_InvalidResponseError e = false ->
     fallback_loop (S fuel) func start_try_ts current_client self w
       = match _get_next_client fuel (mark_failure start_try_ts self) w2 with
         | (Return next_client, self', w3) =>
             fallback_loop fuel func start_try_ts next_client self' w3
         | (Raise e', self', w3) => (Raise e', self', w3)
         | (OutOfFuel, self', w3) => (OutOfFuel, self', w3)
         end).
Proof.
  split; [| split; [| split; [| split]]].
  - intros r self' w' Hrun. apply get_next_client_post in Hrun.
    now destruct Hrun.
  - intros t Hfail Hnz. apply get_next_client_unfold.
    unfold fail_ts_or_now. plumbing. rewrite Hfail.
    apply Z.eqb_neq in Hnz. now rewrite Hnz.
  - intros t w0 Hfail Hnow. apply get_next_client_unfold.
    unfold fail_ts_or_now. plumbing. now rewrite Hfail, Hnow.
  - intro start_try_ts. unfold mark_failure.
    now destruct (_current_fail_ts self) eqn:Hfail.
  - intros func start_try_ts c t w1 e w2 Hnow Hguard Hcall Hs3 Hinv.
    rewrite fallback_loop_unfold, Hnow.
    apply Z.ltb_lt in Hguard. rewrite Hguard, Hcall.
    unfold reraised. now rewrite Hs3, Hinv.
Qed.

End Properties.

(** ** Concrete runs *)

(** [test_multiminio_get_object]: the result is [EXPECTED_RESULT] and
    [requests.get] was called for client 1 then client 2, with the default
    timeout. *)
Example test_multiminio_get_object :
  let '(result, _, w) := _execute_with_fallback 2 get_object multi_minio test_world in
  result = Return EXPECTED_RESULT /\
  http_calls w = [("http://minio1.com/minio/health/live", 5000);
                  ("http://minio2.com/minio/health/live", 5000)].
Proof. vm_compute. split; reflexivity. Qed.

(** An empty client list and a mode other than [FALLBACK] are refused, the
    two test clients with the defaults are accepted. *)
Lemma init_asserts_witness :
  __init__ (default_args []) = inl AssertionError /\
  __init__ (mkInitArgs [client1] RANDOM 60000 5000 300000 60000 10000)
    = inl AssertionError /\
  exists self, __init__ (default_args [client1; client2]) = inr self /\
               _current_client_index self = 0%nat /\
               _current_fail_ts self = None.
Proof.
  split; [| split].
  - apply (proj1 (init_asserts (default_args []))). left. reflexivity.
  - apply (proj1 (init_asserts
                    (mkInitArgs [client1] RANDOM 60000 5000 300000 60000 10000))).
    right. left. discriminate.
  - destruct (proj1 (proj2 (init_asserts (default_args [client1; client2]))))
      as (self & Hinit & _ & Hidx & Hfail & _).
    + unfold rejected. simpl.
      intros [H | [H | [H | H]]]; try discriminate. now contradiction H.
    + exists self. now repeat split.
Defined.

(** A retrieval on [degraded] 460 ms after its snapshot returns the stored
    snapshot and calls [requests.get] not once. *)
Lemma retrieve_clients_health_cache_witness :
  exists hs w',
    _health_statuses degraded = Some hs /\
    _retrieve_clients_health degraded (world [1000500] [] [] [])
      = (Return hs, degraded, w') /\
    http_calls w' = [].
Proof.
  destruct (proj1 (retrieve_clients_health_cache (env := scripted) degraded
                     (world [1000500] [] [] [])
                     (snd (script_now (world [1000500] [] [] [])))
                     1000500 eq_refl eq_refl))
    as (hs & Hsnap & Hrun).
  - split; vm_compute; reflexivity.
  - exists hs. eexists. split; [exact Hsnap |]. split; [exact Hrun |].
    reflexivity.
Defined.

(** [_get_current_client] on [degraded] 60 ms after its snapshot returns
    client 2 and leaves the object as it was. *)
Lemma get_current_client_heartbeat_witness :
  exists w',
    _get_current_client 1 degraded (world [1000100] [] [] [])
      = (Return client2, degraded, w').
Proof.
  destruct (proj1 (get_current_client_heartbeat (env := scripted) 1 degraded
                     (world [1000100] [] [] [])
                     (snd (script_now (world [1000100] [] [] [])))
                     1000100 eq_refl eq_refl))
    as (client & Hitem & Hrun).
  - right. vm_compute. discriminate.
  - vm_compute in Hitem. inversion Hitem; subst client.
    eexists. exact Hrun.
Defined.

(** With the probes answering [FAIL, 200] the search moves to index 1 and
    returns client 2. *)
Lemma next_client_first_healthy_witness :
  exists self1 w1,
    next_client_loop 1 1000000 multi_minio probe_world
      = (Return client2, set_current_client_index 1 self1, w1).
Proof.
  edestruct (next_client_first_healthy (env := scripted) 0 1000000)
    with (self := multi_minio) (w := probe_world)
    as (i & client & Hfirst & Hle & Hnth & Hloop & _).
  - reflexivity.
  - vm_compute. reflexivity.
  - exists (mkHealthStatus (inl 200) (Some 9)).
    instantiate (1 := 1%nat). split; reflexivity.
  - destruct Hfirst as [[h [Hh Hcode]] _].
    destruct i as [| [| i]].
    + vm_compute in Hh. inversion Hh; subst h. discriminate.
    + vm_compute in Hnth. inversion Hnth; subst client.
      eexists. eexists. exact Hloop.
    + lia.
Defined.


(** A search that ends with "All Minio clients are down" on a fresh object
    leaves the index at [0]. *)
Lemma search_all_down_keeps_index_witness :
  _current_client_index
    (snd (fst (_get_next_client 1 multi_minio outage_search))) = 0%nat.
Proof.
  edestruct (search_all_down_keeps_index (env := scripted) 1)
    with (self := multi_minio) (w := outage_search)
    as [Hkeep _].
  - vm_compute. reflexivity.
  - destruct Hkeep as (Hidx & _).
    + exists 70000. reflexivity.
    + exact Hidx.
Defined.


(** [test_multiminio_get_object] again, as an instance of the failover
    theorem: the call returns client 2's result and ends at index 1 with
    the marker cleared. *)
Lemma failover_to_second_client_witness :
  exists final w8,
    _execute_with_fallback 2 get_object multi_minio test_world
      = (Return EXPECTED_RESULT, final, w8) /\
    _current_fail_ts final = None /\
    _current_client_index final = 1%nat.
Proof.
  edestruct (failover_to_second_client (env := scripted) 0 get_object)
    with (self := multi_minio) (w := test_world)
    as (Hrun & Hfail & Hidx & _).
  - reflexivity.
  - reflexivity.
  - reflexivity.
  - vm_compute. reflexivity.
  - vm_compute. reflexivity.
  - vm_compute. reflexivity.
  - vm_compute. reflexivity.
  - vm_compute. reflexivity.
  - reflexivity.
  - reflexivity.
  - vm_compute. reflexivity.
  - vm_compute. reflexivity.
  - apply first_healthy_some. reflexivity.
  - vm_compute. reflexivity.
  - vm_compute. reflexivity.
  - vm_compute. reflexivity.
  - eexists. eexists. split; [exact Hrun |]. split; [exact Hfail | exact Hidx].
Defined.

(** With [fallback_timeout = 2] s and the guard evaluated 2.5 s after the
    start, the loop raises the error carrying [max_try_timeout = 60] s. *)
Lemma exhausted_reports_max_try_timeout_witness :
  exists w1,
    fallback_loop 1 get_object 1000000 client2 impatient (world [1002500] [] [] [])
      = (Raise (MinioException
                  (FailedToExecute "get_object" "('bucket1', 'path1/object1')"
                     "{}" 60000)),
         impatient, w1).
Proof.
  eexists.
  apply (proj1 (exhausted_reports_max_try_timeout (env := scripted) get_object)
           0%nat 1000000 client2 impatient (world [1002500] [] [] [])
           1002500).
  - vm_compute. reflexivity.
  - vm_compute. discriminate.
Defined.

(** C9 as worded fails.  [impatient] has [fallback_timeout = 2] s; client 1
    fails, the search finds client 2, and the guard is next evaluated at
    [1002500], 2.5 s after [start_try_ts = 1000000].  The error raised
    reports 60 s, the configured [max_try_timeout], not the 2.5 s that
    elapsed. *)
Lemma exhausted_does_not_report_elapsed :
  ~ (forall (self : MultiMinio) (w : Script) fuel name args kwargs within
            self' w',
       _execute_with_fallback fuel get_object self w
         = (Raise (MinioException (FailedToExecute name args kwargs within)),
            self', w') ->
       within = resting w' - fst (script_now w)).
Proof.
  intro Hclaim.
  assert (Hrun :
    _execute_with_fallback 2 get_object impatient slow_failover_world
    = (Raise (MinioException
                (FailedToExecute "get_object" "('bucket1', 'path1/object1')"
                   "{}" 60000)),
       snd (fst (_execute_with_fallback 2 get_object impatient
                   slow_failover_world)),
       snd (_execute_with_fallback 2 get_object impatient slow_failover_world)))
    by (vm_compute; reflexivity).
  apply Hclaim in Hrun. vm_compute in Hrun. discriminate.
Qed.

(** The search on [degraded], whose marker is [None], leaves the marker at
    [None]; with the marker set to a non-zero timestamp the downtime is
    counted from it. *)
Lemma search_reads_fail_ts_witness :
  _current_fail_ts
    (snd (fst (_get_next_client 1 degraded first_outage_search))) = None /\
  _get_next_client 1 (mark_failure 1000000 multi_minio) outage_round
    = next_client_loop 1 1000000 (mark_failure 1000000 multi_minio) outage_round.
Proof.
  split.
  - apply (proj1 (search_reads_fail_ts (env := scripted) 1 degraded first_outage_search)
             (fst (fst (_get_next_client 1 degraded first_outage_search)))
             (snd (fst (_get_next_client 1 degraded first_outage_search)))
             (snd (_get_next_client 1 degraded first_outage_search))).
    vm_compute. reflexivity.
  - apply (proj1 (proj2 (search_reads_fail_ts (env := scripted) 1
                           (mark_failure 1000000 multi_minio) outage_round))).
    + reflexivity.
    + discriminate.
Defined.

(** C8 as worded fails.  A call on [degraded] (index 1, no marker) made
    after the heartbeat enters the search with both clients down: the
    search raises after 69.999 s and the marker is still [None].  A second
    call 1000 s later enters the search again and raises after 69.999 s of
    its own, not after the 1069.999 s since the first entry. *)
Lemma streak_start_not_recorded_by_search :
  ~ (forall (self : MultiMinio) (w : Script) r self' w',
       _current_fail_ts self = None ->
       _get_next_client 1 self w = (r, self', w') ->
       _current_fail_ts self' <> None) /\
  _current_fail_ts degraded = None /\
  fst (fst (_execute_with_fallback 1 get_object degraded first_outage))
    = Raise (MinioException (AllClientsDown (2070000 - 2000001))) /\
  _current_fail_ts after_first_outage = None /\
  fst (fst (_execute_with_fallback 1 get_object after_first_outage second_outage))
    = Raise (MinioException (AllClientsDown (3070000 - 3000001))) /\
  3070000 - 3000001 <> 3070000 - 2000001.
Proof.
  split.
  - intro Hclaim.
    apply (Hclaim degraded first_outage_search
             (fst (fst (_get_next_client 1 degraded first_outage_search)))
             (snd (fst (_get_next_client 1 degraded first_outage_search)))
             (snd (_get_next_client 1 degraded first_outage_search))).
    + reflexivity.
    + vm_compute. reflexivity.
    + vm_compute. reflexivity.
  - repeat split; try (vm_compute; reflexivity). discriminate.
Qed.

(** ** Further properties of the dispatcher and the search *)

Section Outcomes.

Context {World : Type} {env : Environment World}.

(** The client [_get_current_client] returns is the one at the index it
    leaves. *)
Lemma get_current_client_returned (fuel : nat) (self self' : MultiMinio)
    (w w' : World) (client : Minio) :
  _get_current_client fuel self w = (Return client, self', w') ->
  nth_error (_clients self') (_current_client_index self') = Some client.
Proof.
  rewrite get_current_client_unfold. destruct (now w) as [t w1].
  destruct (heartbeat_expired self t).
  - intro Hrun. apply get_next_client_post in Hrun.
    destruct (search_returned _ _ _ Hrun client eq_refl) as (hs & _ & _ & Hnth).
    exact Hnth.
  - unfold item. intro Hrun.
    destruct (nth_error (_clients self) (_current_client_index self))
      as [c |] eqn:Hnth; inversion Hrun; subst. exact Hnth.
Qed.

(** The duration in "All Minio clients are down" is the last clock reading
    less the origin of the search, and is beyond [_fallback_timeout]. *)
Lemma next_client_loop_down_time (fuel : nat) (start_ts : TS) :
  forall self w self' w' down_time,
    next_client_loop fuel start_ts self w
      = (Raise (MinioException (AllClientsDown down_time)), self', w') ->
    exists wx t, now wx = (t, w') /\ down_time = t - start_ts /\
                 _fallback_timeout self < down_time.
Proof.
  induction fuel as [| fuel IH]; intros self w self' w' d Hrun.
  - simpl in Hrun. discriminate.
  - rewrite next_client_loop_unfold in Hrun.
    destruct (_retrieve_clients_health self w) as [[r0 self1] w1] eqn:Hget.
    apply retrieve_frame in Hget as (Hcfg & _ & _ & _ & Hexc & _).
    destruct Hcfg as (_ & _ & Hfb & _).
    destruct r0 as [hs | e |].
    + destruct (first_healthy hs) as [i |].
      * unfold item in Hrun.
        destruct (nth_error (_clients self1) i); discriminate.
      * destruct (now w1) as [t w2] eqn:Hnow.
        destruct (_fallback_timeout self1 <? t - start_ts) eqn:Hlong.
        -- inversion Hrun; subst. exists w1, t.
           split; [exact Hnow |]. split; [reflexivity |].
           apply Z.ltb_lt in Hlong. now rewrite <- Hfb.
        -- apply IH in Hrun as (wx & t' & Hn & Hd & Hlt).
           exists wx, t'. split; [exact Hn |]. split; [exact Hd |].
           now rewrite <- Hfb.
    + inversion Hrun; subst. specialize (Hexc _ eq_refl). discriminate.
    + discriminate.
Qed.

Lemma get_next_client_down_time (fuel : nat) (self self' : MultiMinio)
    (w w' : World) (down_time : TS) :
  _get_next_client fuel self w
    = (Raise (MinioException (AllClientsDown down_time)), self', w') ->
  _fallback_timeout self < down_time.
Proof.
  destruct (fail_ts_or_now_cases self w) as (start_ts & w0 & Hstart & _).
  rewrite (get_next_client_unfold fuel _ _ _ _ Hstart). intro Hrun.
  apply next_client_loop_down_time in Hrun as (_ & _ & _ & _ & Hlt).
  exact Hlt.
Qed.

(** What the dispatcher's loop can end with, entered on the client at the
    current index. *)
Lemma fallback_loop_outcome (fuel : nat) (func : Call) (start_try_ts : TS) :
  forall current_client self w r self' w',
    wf self = true ->
    nth_error (_clients self) (_current_client_index self)
      = Some current_client ->
    fallback_loop fuel func start_try_ts current_client self w = (r, self', w') ->
    (forall result, r = Return result ->
       _current_fail_ts self' = None /\
       exists client wa,
         nth_error (_clients self) (_current_client_index self') = Some client /\
         call_method client func wa = (Returned result, w')) /\
    (forall e, r = Raise e ->
       surfaced func self w' e /\
       (_current_fail_ts self' = _current_fail_ts self \/
        _current_fail_ts self = None /\
        _current_fail_ts self' = Some start_try_ts)).
Proof.
  induction fuel as [| fuel IH]; intros c self w r self' w' Hwf Hitem Hrun.
  - simpl in Hrun. inversion Hrun; subst. split; discriminate.
  - rewrite fallback_loop_unfold in Hrun.
    destruct (now w) as [t w1] eqn:Hnow.
    destruct (t - start_try_ts <? _fallback_timeout self) eqn:Hguard.
    + destruct (call_method c func w1) as [[result | e] w2] eqn:Hcall.
      * inversion Hrun; subst. split; [| discriminate].
        intros result' Hr. inversion Hr; subst result'.
        split; [reflexivity |]. exists c, w1. now split.
      * destruct (reraised e) eqn:Hre.
        -- inversion Hrun; subst. split; [discriminate |].
           intros e' He. inversion He; subst e'. split; [| now left].
           apply surfaced_reraised with c w1; try assumption.
           eapply nth_error_In. eassumption.
        -- destruct (_get_next_client fuel (mark_failure start_try_ts self) w2)
             as [[r1 self1] w3] eqn:Hnext.
           assert (Hwfm : wf (mark_failure start_try_ts self) = true)
             by now rewrite mark_failure_wf.
           pose proof (get_next_client_wf _ _ _ _ _ _ Hwfm Hnext)
             as (Hwf1 & Hnoidx & Hnoassert).
           pose proof (get_next_client_post _ _ _ _ _ _ Hnext)
             as [C F _ Rs _ R].
           pose proof (same_config_trans _ _ _
                         (mark_failure_config start_try_ts self) C) as Hcfg.
           assert (Hmark : _current_fail_ts self1 = _current_fail_ts self \/
                           _current_fail_ts self = None /\
                           _current_fail_ts self1 = Some start_try_ts).
           { rewrite F. unfold mark_failure.
             destruct (_current_fail_ts self) eqn:Hm.
             - left. exact Hm.
             - right. now split. }
           destruct r1 as [next_client | e' |].
           ++ destruct (R next_client eq_refl) as (hs & _ & _ & Hnth).
              destruct (IH _ _ _ _ _ _ Hwf1 Hnth Hrun) as [Hret Hraise].
              destruct Hcfg as (Hcl & _ & Hfb & _ & _ & Hmax & _).
              split.
              ** intros result Hr. destruct (Hret result Hr) as [Hnone Hfrom].
                 split; [exact Hnone |].
                 destruct Hfrom as (client & wa & Hn & Hc).
                 exists client, wa. split; [now rewrite <- Hcl | exact Hc].
              ** intros e0 He. destruct (Hraise e0 He) as [Hs Hm]. split.
                 --- destruct Hs as [e0 client wa Hr Hin Hc | | d Hd].
                     +++ apply surfaced_reraised with client wa; try assumption.
                         now rewrite <- Hcl.
                     +++ unfold exhausted. rewrite Hmax.
                         apply surfaced_exhausted.
                     +++ apply surfaced_all_down. now rewrite <- Hfb.
                 --- destruct Hm as [Hm | [Hm _]].
                     +++ rewrite Hm. exact Hmark.
                     +++ exfalso. rewrite F in Hm. unfold mark_failure in Hm.
                         destruct (_current_fail_ts self) eqn:Hm0;
                           simpl in Hm; congruence.
           ++ inversion Hrun; subst. split; [discriminate |].
              intros e0 He. inversion He; subst e0. split; [| exact Hmark].
              destruct (Rs _ eq_refl) as [H | [H | [d H]]]; subst.
              ** now contradiction Hnoassert.
              ** now contradiction Hnoidx.
              ** apply surfaced_all_down.
                 apply get_next_client_down_time in Hnext.
                 destruct (mark_failure_config start_try_ts self)
                   as (_ & _ & Hfb & _).
                 now rewrite <- Hfb.
           ++ inversion Hrun; subst. split; discriminate.
    + inversion Hrun; subst. split; [discriminate |].
      intros e He. inversion He; subst e.
      split; [apply surfaced_exhausted | now left].
Qed.




(** X2. A value [_execute_with_fallback] returns is the value the wrapped
    method just returned on the client at the index the call leaves, nothing
    having happened in the environment since; and the failure marker is
    then [None]. *)
Theorem wrapped_call_returns (fuel : nat) (func : Call)
    (self self' : MultiMinio) (w w' : World) (result : string) :
  wf self = true ->
  _execute_with_fallback fuel func self w = (Return result, self', w') ->
  _current_fail_ts self' = None /\
  exists client wa,
    nth_error (_clients self) (_current_client_index self') = Some client /\
    call_method client func wa = (Returned result, w').
Proof.
  intros Hwf Hrun. rewrite execute_unfold in Hrun.
  destruct (now w) as [start_try_ts w1].
  destruct (_get_current_client fuel self w1) as [[r1 self1] w2] eqn:Hcur.
  pose proof (get_current_client_wf _ _ _ _ _ _ Hwf Hcur) as (Hwf1 & _).
  pose proof (get_current_client_post _ _ _ _ _ _ Hcur) as ((Hcl & _) & _).
  destruct r1 as [client | e1 |]; try discriminate.
  apply get_current_client_returned in Hcur.
  destruct (fallback_loop_outcome _ _ _ _ _ _ _ _ _ Hwf1 Hcur Hrun)
    as [Hret _].
  destruct (Hret result eq_refl) as (Hnone & c & wa & Hn & Hc).
  split; [exact Hnone |]. exists c, wa. split; [now rewrite <- Hcl | exact Hc].
Qed.

(** X3. A call that ends with an exception never clears the failure
    marker: it leaves the marker it found, or, having found [None], the
    timestamp read when the call started. *)
Theorem wrapped_call_keeps_marker (fuel : nat) (func : Call)
    (self self' : MultiMinio) (w w1 w' : World) (start_try_ts : TS)
    (e : PyException) :
  wf self = true ->
  now w = (start_try_ts, w1) ->
  _execute_with_fallback fuel func self w = (Raise e, self', w') ->
  _current_fail_ts self' = _current_fail_ts self \/
  _current_fail_ts self = None /\ _current_fail_ts self' = Some start_try_ts.
Proof.
  intros Hwf Hnow Hrun. rewrite execute_unfold, Hnow in Hrun.
  destruct (_get_current_client fuel self w1) as [[r1 self1] w2] eqn:Hcur.
  pose proof (get_current_client_wf _ _ _ _ _ _ Hwf Hcur) as (Hwf1 & _).
  pose proof (get_current_client_post _ _ _ _ _ _ Hcur) as (_ & Hfail & _).
  destruct r1 as [client | e1 |].
  - apply get_current_client_returned in Hcur.
    destruct (fallback_loop_outcome _ _ _ _ _ _ _ _ _ Hwf1 Hcur Hrun)
      as [_ Hraise].
    destruct (Hraise e eq_refl) as [_ Hm]. rewrite Hfail in Hm. exact Hm.
  - inversion Hrun; subst. now left.
  - discriminate.
Qed.

(** X4. The first try of a call that needs no search (index [0], or
    snapshot age within the heartbeat): when the loop guard holds and the
    wrapped method returns on the current client, that value is returned
    after three clock readings and one client call; the object differs from
    the one the call found in the failure marker only, which is [None]. *)
Theorem first_try_returns (fuel : nat) (func : Call) (self : MultiMinio)
    (client : Minio) (w w1 w2 w3 w4 : World) (start_try_ts t1 t2 : TS)
    (result : string) :
  now w = (start_try_ts, w1) ->
  now w1 = (t1, w2) ->
  _current_client_index self = 0%nat \/
  t1 - _last_health_check_ts self <= _health_check_heartbeat self ->
  nth_error (_clients self) (_current_client_index self) = Some client ->
  now w2 = (t2, w3) ->
  t2 - start_try_ts < _fallback_timeout self ->
  call_method client func w3 = (Returned result, w4) ->
  _execute_with_fallback (S fuel) func self w
    = (Return result, set_current_fail_ts None self, w4).
Proof.
  intros Hnow0 Hnow1 Hstay Hitem Hnow2 Hguard Hcall.
  rewrite execute_unfold, Hnow0, get_current_client_unfold, Hnow1.
  assert (Hno : heartbeat_expired self t1 = false).
  { unfold heartbeat_expired. apply andb_false_iff.
    destruct Hstay as [H0 | Hage].
    - left. now rewrite H0.
    - right. now apply Z.ltb_ge. }
  rewrite Hno. unfold item. rewrite Hitem.
  rewrite fallback_loop_unfold, Hnow2.
  apply Z.ltb_lt in Hguard. now rewrite Hguard, Hcall.
Qed.

(** X5. [__init__] establishes the invariant and the order of the delays,
    [heartbeat >= 2 * min_interval >= 4 * health_check_timeout]; a wrapped
    call keeps the invariant and assigns none of the attributes set from
    the constructor's arguments, whatever its outcome. *)
Theorem wrapped_call_keeps_invariant :
  (forall a self,
     __init__ a = inr self ->
     wf self = true /\
     2 * _health_check_min_interval self <= _health_check_heartbeat self /\
     4 * _health_check_timeout self <= 2 * _health_check_min_interval self) /\
  (forall fuel func self w r self' w',
     wf self = true ->
     _execute_with_fallback fuel func self w = (r, self', w') ->
     wf self' = true /\ same_config self self').
Proof.
  split.
  - intros a self Hinit. split; [now apply init_wf with a |].
    unfold __init__ in Hinit.
    destruct (0 <? List.length (clients a))%nat; [| discriminate].
    destruct (LoadBalanceType_eqb (load_balance_type a) FALLBACK);
      [| discriminate].
    destruct (health_check_interval a * 2 <=? health_check_heartbeat a)
      eqn:Hhb; [| discriminate].
    destruct (health_check_timeout a * 2 <=? health_check_interval a)
      eqn:Hmi; [| discriminate].
    cbn [negb] in Hinit. inversion Hinit; subst.
    cbn [_health_check_min_interval _health_check_heartbeat
         _health_check_timeout].
    apply Z.leb_le in Hhb, Hmi. lia.
  - intros fuel func self w r self' w' Hwf Hrun.
    split; [now apply execute_wf with fuel func self w w' r |].
    rewrite execute_unfold in Hrun. destruct (now w) as [t w1].
    destruct (_get_current_client fuel self w1) as [[r1 self1] w2] eqn:Hcur.
    apply get_current_client_post in Hcur as (Hcfg & _).
    destruct r1 as [client | e1 |].
    + apply fallback_loop_post in Hrun as [Hcfg' _].
      eapply same_config_trans; eassumption.
    + now inversion Hrun; subst.
    + now inversion Hrun; subst.
Qed.

(** X6. The duration in "All Minio clients are down", as raised by
    [_get_next_client], is measured: it is the last clock reading less the
    origin of the search, the origin being the failure marker when set and
    non-zero and the reading taken on entry otherwise; and it is beyond
    [_fallback_timeout]. *)
Theorem all_down_reports_down_time (fuel : nat) (self self' : MultiMinio)
    (w w' : World) (down_time : TS) :
  _get_next_client fuel self w
    = (Raise (MinioException (AllClientsDown down_time)), self', w') ->
  exists start_ts wx t,
    now wx = (t, w') /\ down_time = t - start_ts /\
    _fallback_timeout self < down_time /\
    ((exists t0, _current_fail_ts self = Some t0 /\ t0 <> 0 /\ start_ts = t0) \/
     ((_current_fail_ts self = None \/ _current_fail_ts self = Some 0) /\
      exists w0, now w = (start_ts, w0))).
Proof.
  destruct (fail_ts_or_now_cases self w) as (start_ts & w0 & Hstart & Horigin).
  rewrite (get_next_client_unfold fuel _ _ _ _ Hstart). intro Hrun.
  apply next_client_loop_down_time in Hrun as (wx & t & Hn & Hd & Hlt).
  exists start_ts, wx, t. repeat split; try assumption.
  destruct Horigin as [(t0 & Hm & Hnz & Hs & _) | [Hm Hn0]].
  - left. now exists t0.
  - right. split; [exact Hm |]. now exists w0.
Qed.

(** X7. With [min_interval >= 0] and [heartbeat >= 2 * min_interval], as
    [__init__] asserts for a non-negative probe timeout, the search that
    [_get_current_client] starts once the heartbeat has expired is never
    answered from the cache: its first retrieval, made no earlier than the
    reading that found the heartbeat expired, probes every client. *)
Theorem heartbeat_recheck_probes (fuel : nat) (self : MultiMinio)
    (w w1 w2 w3 : World) (t t' start_ts : TS) :
  0 <= _health_check_min_interval self ->
  2 * _health_check_min_interval self <= _health_check_heartbeat self ->
  now w = (t, w1) ->
  (0 < _current_client_index self)%nat ->
  _health_check_heartbeat self < t - _last_health_check_ts self ->
  fail_ts_or_now self w1 = (Return start_ts, self, w2) ->
  now w2 = (t', w3) ->
  t <= t' ->
  _get_current_client fuel self w = next_client_loop fuel start_ts self w2 /\
  exists hs w4 t'' w5,
    mtmap (_check_health_status self) (_clients self) w3 = (hs, w4) /\
    now w4 = (t'', w5) /\
    _retrieve_clients_health self w2 = (Return hs, set_health t'' hs self, w5).
Proof.
  intros Hmi Hhb Hnow Hidx Hage Hstart Hnow' Hmono. split.
  - rewrite get_current_client_unfold, Hnow. unfold heartbeat_expired.
    apply Nat.ltb_lt in Hidx. apply Z.ltb_lt in Hage.
    rewrite Hidx, Hage. cbn [andb]. now apply get_next_client_unfold.
  - assert (Hstale : cache_fresh self t' = false).
    { destruct (cache_fresh self t') eqn:Hc; [| reflexivity].
      apply cache_fresh_iff in Hc. lia. }
    destruct (mtmap (_check_health_status self) (_clients self) w3)
      as [hs w4] eqn:Hprobe.
    destruct (now w4) as [t'' w5] eqn:Hnow''.
    exists hs, w4, t'', w5. split; [reflexivity |]. split; [exact Hnow'' |].
    now apply retrieve_miss with w3 w4 t'.
Qed.

(** X8. Recovery of the primary client.  When [_get_current_client] finds
    the index positive and the heartbeat expired, and the snapshot the
    search retrieves has status 200 at position 0, the index goes back to
    [0] and client 0 is returned, whatever the status of the client that
    was in use. *)
Theorem heartbeat_recheck_returns_to_primary (fuel : nat)
    (self self1 : MultiMinio) (w w1 w2 w3 : World) (t start_ts : TS)
    (hs : list HealthStatus) (client0 : Minio) :
  now w = (t, w1) ->
  (0 < _current_client_index self)%nat ->
  _health_check_heartbeat self < t - _last_health_check_ts self ->
  fail_ts_or_now self w1 = (Return start_ts, self, w2) ->
  _retrieve_clients_health self w2 = (Return hs, self1, w3) ->
  healthy_at hs 0 ->
  nth_error (_clients self) 0 = Some client0 ->
  _get_current_client (S fuel) self w
    = (Return client0, set_current_client_index 0 self1, w3) /\
  _current_client_index (set_current_client_index 0 self1) = 0%nat.
Proof.
  intros Hnow Hidx Hage Hstart Hget Hzero Hitem. split; [| reflexivity].
  rewrite get_current_client_unfold, Hnow. unfold heartbeat_expired.
  apply Nat.ltb_lt in Hidx. apply Z.ltb_lt in Hage.
  rewrite Hidx, Hage. cbn [andb].
  rewrite (get_next_client_unfold _ _ _ _ _ Hstart).
  rewrite next_client_loop_unfold, Hget.
  assert (Hscan : first_healthy hs = Some 0%nat).
  { apply first_healthy_some. split; [exact Hzero |]. intros j Hj. lia. }
  rewrite Hscan. unfold item.
  pose proof (retrieve_frame _ _ _ _ _ Hget) as ((Hcl & _) & _).
  now rewrite Hcl, Hitem.
Qed.

(** X9. One probe: [_check_health_status] reads the clock, sends one
    request to the client's URL followed by [/minio/health/live] with
    [_health_check_timeout], and reads the clock again.  Its result counts
    as healthy in the search exactly when the request was answered with
    status 200; any other status is kept as a number, an exception of
    [requests] as the exception, and the response time is the difference of
    the two readings in both cases. *)
Theorem check_health_status_outcome (self : MultiMinio) (client : Minio)
    (w w1 w2 w3 : World) (t0 t1 : TS) (response : HttpResult) :
  now w = (t0, w1) ->
  requests_get (_get_client_url client ++ "/minio/health/live")
    (_health_check_timeout self) w1 = (response, w2) ->
  now w2 = (t1, w3) ->
  exists h,
    _check_health_status self client w = (h, w3) /\
    response_time h = Some (t1 - t0) /\
    status_code h = match response with
                    | Response code => inl code
                    | HttpRaised e => inr e
                    end /\
    (is_healthy h = true <-> response = Response 200).
Proof.
  intros Hnow0 Hget Hnow1. unfold _check_health_status.
  rewrite Hnow0, Hget, Hnow1. destruct response as [code | e].
  - eexists. split; [reflexivity |]. split; [reflexivity |].
    split; [reflexivity |]. unfold is_healthy. cbn [status_code].
    rewrite Z.eqb_eq. split; intro H; [now subst | now inversion H].
  - eexists. split; [reflexivity |]. split; [reflexivity |].
    split; [reflexivity |]. unfold is_healthy. cbn [status_code].
    split; discriminate.
Qed.


(** ** Termination under an advancing clock *)

Lemma check_health_status_time (time : World -> TS) (tick : TS)
    (self : MultiMinio) (client : Minio) (w w' : World) (h : HealthStatus) :
  advancing time tick ->
  _check_health_status self client w = (h, w') ->
  time w <= time w'.
Proof.
  intros [Htick Hnow Hget _]. unfold _check_health_status.
  destruct (now w) as [t0 w1] eqn:H0.
  destruct (requests_get (_get_client_url client ++ "/minio/health/live")
              (_health_check_timeout self) w1) as [resp w2] eqn:H1.
  destruct (now w2) as [t1 w3] eqn:H2.
  apply Hnow in H0 as [A0 B0]. apply Hget in H1. apply Hnow in H2 as [A2 B2].
  destruct resp; intro Heq; inversion Heq; subst; lia.
Qed.

Lemma mtmap_time (time : World -> TS) (tick : TS) (self : MultiMinio)
    (cs : list Minio) :
  advancing time tick ->
  forall w hs w',
    mtmap (_check_health_status self) cs w = (hs, w') -> time w <= time w'.
Proof.
  intro Hadv. induction cs as [| c rest IH]; intros w hs w' Hrun;
    simpl in Hrun.
  - inversion Hrun; subst. lia.
  - destruct (_check_health_status self c w) as [h w1] eqn:Hc.
    destruct (mtmap (_check_health_status self) rest w1) as [hs' w2] eqn:Hr.
    inversion Hrun; subst.
    apply (check_health_status_time _ _ _ _ _ _ _ Hadv) in Hc.
    apply IH in Hr. lia.
Qed.

(** A retrieval reads the clock at least once. *)
Lemma retrieve_time (time : World -> TS) (tick : TS) (self self' : MultiMinio)
    (w w' : World) (r : Result (list HealthStatus)) :
  advancing time tick ->
  _retrieve_clients_health self w = (r, self', w') ->
  time w + tick <= time w'.
Proof.
  intros Hadv Hrun. pose proof (retrieve_cases self w) as Hcase.
  rewrite Hrun in Hcase. pose proof Hadv as [Htick Hnow _ _].
  inversion Hcase as [t w1 hs Hn _ _ | t w1 Hn _ _
                     | t w1 hs w2 t' w3 Hn _ Hprobe Hn']; subst.
  - apply Hnow in Hn. lia.
  - apply Hnow in Hn. lia.
  - apply Hnow in Hn. apply Hnow in Hn'.
    apply (mtmap_time _ _ _ _ Hadv) in Hprobe. lia.
Qed.

(** The search ends, and later than it began. *)
Lemma next_client_loop_terminates (time : World -> TS) (tick : TS)
    (start_ts : TS) :
  advancing time tick ->
  forall n self w,
    start_ts + _fallback_timeout self - time w < Z.of_nat n * tick ->
    exists r self' w',
      next_client_loop (S n) start_ts self w = (r, self', w') /\
      r <> OutOfFuel /\ time w + tick <= time w'.
Proof.
  intro Hadv. pose proof Hadv as [Htick Hnow _ _].
  induction n as [| n IH]; intros self w Hfuel;
    rewrite next_client_loop_unfold;
    destruct (_retrieve_clients_health self w) as [[r0 self1] w1] eqn:Hget;
    pose proof (retrieve_time _ _ _ _ _ _ _ Hadv Hget) as Ht1;
    apply retrieve_frame in Hget as ((_ & _ & Hfb & _) & _ & _ & Hnf & _);
    (destruct r0 as [hs | e |]; [| | now contradiction Hnf]).
  - destruct (first_healthy hs) as [i |].
    + eexists. eexists. eexists. split; [reflexivity |]. split; [| exact Ht1].
      unfold item. destruct (nth_error (_clients self1) i); discriminate.
    + destruct (now w1) as [t w2] eqn:Hn. apply Hnow in Hn as [Hn1 Hn2].
      destruct (_fallback_timeout self1 <? t - start_ts) eqn:Hlong.
      * eexists. eexists. eexists. split; [reflexivity |].
        split; [discriminate | lia].
      * apply Z.ltb_ge in Hlong. lia.
  - eexists. eexists. eexists. split; [reflexivity |].
    split; [discriminate | exact Ht1].
  - destruct (first_healthy hs) as [i |].
    + eexists. eexists. eexists. split; [reflexivity |]. split; [| exact Ht1].
      unfold item. destruct (nth_error (_clients self1) i); discriminate.
    + destruct (now w1) as [t w2] eqn:Hn. apply Hnow in Hn as [Hn1 Hn2].
      destruct (_fallback_timeout self1 <? t - start_ts) eqn:Hlong.
      * eexists. eexists. eexists. split; [reflexivity |].
        split; [discriminate | lia].
      * apply Z.ltb_ge in Hlong.
        destruct (IH self1 w2) as (r & self' & w' & Hrun & Hne & Ht).
        { rewrite Hfb. lia. }
        exists r, self', w'. split; [exact Hrun |].
        split; [exact Hne | lia].
  - eexists. eexists. eexists. split; [reflexivity |].
    split; [discriminate | exact Ht1].
Qed.

(** X10. The search is a loop bounded by the clock.  If every reading
    advances the clock by at least [tick] and the failure marker, when set,
    lies in the past, [_get_next_client] ends, with a client or with an
    exception, within [n + 1] turns as soon as [n * tick] exceeds
    [_fallback_timeout]. *)
Theorem search_terminates (time : World -> TS) (tick : TS) (n : nat)
    (self : MultiMinio) (w : World) :
  advancing time tick ->
  (forall t0, _current_fail_ts self = Some t0 -> t0 <= time w) ->
  _fallback_timeout self < Z.of_nat n * tick ->
  exists r self' w',
    _get_next_client (S n) self w = (r, self', w') /\ r <> OutOfFuel.
Proof.
  intros Hadv Hpast Hfuel. pose proof Hadv as [Htick Hnow _ _].
  destruct (fail_ts_or_now_cases self w) as (start_ts & w0 & Hstart & Horigin).
  rewrite (get_next_client_unfold _ _ _ _ _ Hstart).
  destruct (next_client_loop_terminates time tick start_ts Hadv n self w0)
    as (r & self' & w' & Hrun & Hne & _).
  - destruct Horigin as [(t0 & Hm & _ & Hs & Hw) | [_ Hn]].
    + subst. specialize (Hpast _ Hm). lia.
    + apply Hnow in Hn as [_ Hn]. lia.
  - now exists r, self', w'.
Qed.

Lemma get_next_client_time (time : World -> TS) (tick : TS) (n : nat)
    (self : MultiMinio) (w : World) :
  advancing time tick ->
  forall start_ts,
    fail_ts_or_now self w = (Return start_ts, self, w) ->
    start_ts + _fallback_timeout self - time w < Z.of_nat n * tick ->
    exists r self' w',
      _get_next_client (S n) self w = (r, self', w') /\
      r <> OutOfFuel /\ time w + tick <= time w'.
Proof.
  intros Hadv start_ts Hstart Hfuel.
  rewrite (get_next_client_unfold _ _ _ _ _ Hstart).
  now apply next_client_loop_terminates.
Qed.

(** The dispatcher's loop ends. *)
Lemma fallback_loop_terminates (time : World -> TS) (tick : TS)
    (func : Call) (start_try_ts : TS) :
  advancing time tick ->
  start_try_ts <> 0 ->
  forall n current_client self w,
    (forall t0, _current_fail_ts self = Some t0 ->
                t0 <> 0 /\ t0 <= start_try_ts) ->
    start_try_ts + _fallback_timeout self - time w < Z.of_nat n * tick ->
    exists r self' w',
      fallback_loop (S n) func start_try_ts current_client self w
        = (r, self', w') /\ r <> OutOfFuel.
Proof.
  intros Hadv Hnz. pose proof Hadv as [Htick Hnow _ Hcall].
  induction n as [| n IH]; intros c self w Hmark Hfuel;
    rewrite fallback_loop_unfold;
    destruct (now w) as [t w1] eqn:Hn; apply Hnow in Hn as [Hn1 Hn2];
    destruct (t - start_try_ts <? _fallback_timeout self) eqn:Hguard;
    try (eexists; eexists; eexists; split; [reflexivity | discriminate]).
  - apply Z.ltb_lt in Hguard. lia.
  - apply Z.ltb_lt in Hguard.
    destruct (call_method c func w1) as [[result | e] w2] eqn:Hc;
      [eexists; eexists; eexists; split; [reflexivity | discriminate] |].
    apply Hcall in Hc.
    destruct (reraised e);
      [eexists; eexists; eexists; split; [reflexivity | discriminate] |].
    set (marked := mark_failure start_try_ts self).
    assert (Hm : exists m, _current_fail_ts marked = Some m /\
                           m <> 0 /\ m <= start_try_ts).
    { unfold marked, mark_failure.
      destruct (_current_fail_ts self) as [t0 |] eqn:Hf.
      - exists t0. split; [exact Hf |]. now apply Hmark.
      - exists start_try_ts. split; [reflexivity |]. split; [exact Hnz | lia]. }
    destruct Hm as (m & Hm & Hmnz & Hmle).
    assert (Hcfg : same_config self marked) by apply mark_failure_config.
    destruct Hcfg as (_ & _ & Hfb & _).
    assert (Hstart : fail_ts_or_now marked w2 = (Return m, marked, w2)).
    { unfold fail_ts_or_now, bind, get_self, ret. cbn beta iota.
      rewrite Hm. apply Z.eqb_neq in Hmnz. now rewrite Hmnz. }
    destruct (get_next_client_time time tick n marked w2 Hadv m Hstart)
      as (r1 & self1 & w3 & Hnext & Hne & Ht3).
    { rewrite Hfb. lia. }
    fold marked. rewrite Hnext.
    pose proof (get_next_client_post _ _ _ _ _ _ Hnext) as [C F _ _ _ _].
    destruct r1 as [next_client | e' |];
      [| eexists; eexists; eexists; split; [reflexivity | discriminate]
       | now contradiction Hne].
    apply IH.
    + intros t0 Ht0. rewrite F, Hm in Ht0. inversion Ht0; subst. now split.
    + destruct C as (_ & _ & Hfb1 & _). rewrite Hfb1, Hfb. lia.
Qed.

(** X11. A wrapped call is bounded by the clock.  If every reading advances
    the clock by at least [tick], the clock is not negative and the failure
    marker, when set, is a positive time of the past,
    [_execute_with_fallback] returns or raises within [n + 1] turns of each
    of its loops as soon as [n * tick] exceeds [_fallback_timeout]. *)
Theorem wrapped_call_terminates (time : World -> TS) (tick : TS) (n : nat)
    (func : Call) (self : MultiMinio) (w : World) :
  advancing time tick ->
  0 <= time w ->
  (forall t0, _current_fail_ts self = Some t0 -> 0 < t0 <= time w) ->
  _fallback_timeout self < Z.of_nat n * tick ->
  exists r self' w',
    _execute_with_fallback (S n) func self w = (r, self', w') /\
    r <> OutOfFuel.
Proof.
  intros Hadv Hpos Hpast Hfuel. pose proof Hadv as [Htick Hnow _ _].
  rewrite execute_unfold.
  destruct (now w) as [start_try_ts w1] eqn:Hn. apply Hnow in Hn as [Hs1 Hs2].
  assert (Hcur : exists r1 self1 w2,
            _get_current_client (S n) self w1 = (r1, self1, w2) /\
            r1 <> OutOfFuel /\ time w1 <= time w2 /\
            same_config self self1 /\
            _current_fail_ts self1 = _current_fail_ts self).
  { destruct (_get_current_client (S n) self w1) as [[r1 self1] w2] eqn:Hc.
    exists r1, self1, w2. split; [reflexivity |].
    pose proof (get_current_client_post _ _ _ _ _ _ Hc) as (Hcfg & Hf & _).
    rewrite get_current_client_unfold in Hc.
    destruct (now w1) as [t w1'] eqn:Hn1. apply Hnow in Hn1 as [Ha Hb].
    destruct (heartbeat_expired self t).
    - destruct (fail_ts_or_now_cases self w1')
        as (o & w0 & Hstart & Horigin).
      rewrite (get_next_client_unfold _ _ _ _ _ Hstart) in Hc.
      destruct (next_client_loop_terminates time tick o Hadv n self w0)
        as (r & s' & w' & Hrun & Hne & Ht).
      + destruct Horigin as [(t0 & Hm & _ & Ho & Hw) | [_ Hn0]].
        * subst. specialize (Hpast _ Hm). lia.
        * apply Hnow in Hn0 as [_ Hn0]. lia.
      + rewrite Hrun in Hc. inversion Hc; subst.
        split; [exact Hne |]. split; [| now split].
        destruct Horigin as [(t0 & _ & _ & _ & Hw) | [_ Hn0]].
        * subst. lia.
        * apply Hnow in Hn0 as [Hx Hy]. lia.
    - inversion Hc; subst. split.
      + unfold item.
        destruct (nth_error (_clients self1) (_current_client_index self1));
          discriminate.
      + split; [lia | now split]. }
  destruct Hcur as (r1 & self1 & w2 & Hc & Hne & Ht & Hcfg & Hf).
  rewrite Hc. destruct r1 as [client | e |];
    [| eexists; eexists; eexists; split; [reflexivity | discriminate]
     | now contradiction Hne].
  apply (fallback_loop_terminates time tick func start_try_ts Hadv).
  - lia.
  - intros t0 Ht0. rewrite Hf in Ht0. specialize (Hpast _ Ht0). lia.
  - destruct Hcfg as (_ & _ & Hfb & _). rewrite Hfb. lia.
Qed.

(** ** The search under a stalled clock *)

Lemma all_unhealthy_scan (hs : list HealthStatus) :
  Forall (fun h => is_healthy h = false) hs -> first_healthy hs = None.
Proof.
  intro Hall. apply first_healthy_none. intros j [h [Hnth Hcode]].
  apply nth_error_In in Hnth.
  rewrite Forall_forall in Hall. specialize (Hall h Hnth).
  apply is_healthy_iff in Hcode. congruence.
Qed.

Lemma mtmap_stalled (P : World -> Prop) (limit : TS) (self : MultiMinio)
    (cs : list Minio) :
  stalled P limit ->
  forall w, P w ->
    exists hs w',
      mtmap (_check_health_status self) cs w = (hs, w') /\ P w' /\
      Forall (fun h => is_healthy h = false) hs.
Proof.
  intros [Hnow Hget]. induction cs as [| c rest IH]; intros w Hw; simpl.
  - exists [], w. now repeat split.
  - unfold _check_health_status at 1.
    destruct (Hnow w Hw) as (t0 & w1 & E0 & Hw1 & _). rewrite E0.
    destruct (Hget (_get_client_url c ++ "/minio/health/live")
                (_health_check_timeout self) w1 Hw1)
      as (resp & w2 & E1 & Hw2 & Hresp). rewrite E1.
    destruct (Hnow w2 Hw2) as (t1 & w3 & E2 & Hw3 & _). rewrite E2.
    destruct (IH w3 Hw3) as (hs & w' & Er & Hw' & Hall).
    destruct resp as [code | e]; rewrite Er.
    + eexists. exists w'. split; [reflexivity |]. split; [exact Hw' |].
      constructor; [| exact Hall]. unfold is_healthy. cbn [status_code].
      apply Z.eqb_neq. intro Hc. apply Hresp. now subst.
    + eexists. exists w'. split; [reflexivity |]. split; [exact Hw' |].
      constructor; [reflexivity | exact Hall].
Qed.

(** X12. The search neither sleeps nor counts its turns.  As long as the
    clock shows no more than [start_ts + _fallback_timeout], no probe is
    answered with status 200 and the stored snapshot has no healthy entry,
    the loop of [_get_next_client] goes on: no number of turns makes it
    return or raise. *)
Theorem search_spins (P : World -> Prop) (limit start_ts : TS) (fuel : nat) :
  stalled P limit ->
  forall self w,
    P w ->
    wf self = true ->
    (forall hs, _health_statuses self = Some hs -> first_healthy hs = None) ->
    limit - start_ts <= _fallback_timeout self ->
    exists self' w',
      next_client_loop fuel start_ts self w = (OutOfFuel, self', w').
Proof.
  intro Hst. pose proof Hst as [Hnow Hget].
  induction fuel as [| fuel IH]; intros self w Hw Hwf Hstored Hlimit.
  - exists self, w. reflexivity.
  - rewrite next_client_loop_unfold.
    destruct (retrieve_wf self w Hwf) as (hs & self1 & w1 & Hrun & Hwf1 & _).
    rewrite Hrun.
    pose proof (retrieve_frame _ _ _ _ _ Hrun)
      as ((_ & _ & Hfb & _) & _ & _ & _ & _ & Hsnap).
    specialize (Hsnap hs eq_refl).
    pose proof (retrieve_cases self w) as Hcase. rewrite Hrun in Hcase.
    assert (Hboth : P w1 /\ first_healthy hs = None).
    { inversion Hcase as [t wa hs' Hn _ Hs | | t wa hs' wb t' wc Hn _ Hp Hn'];
        subst.
      - destruct (Hnow w Hw) as (t0 & w0 & E0 & Hw0 & _).
        rewrite E0 in Hn. inversion Hn; subst. split; [exact Hw0 |].
        now apply Hstored.
      - destruct (Hnow w Hw) as (t0 & w0 & E0 & Hw0 & _).
        rewrite E0 in Hn. inversion Hn; subst.
        destruct (mtmap_stalled P limit self (_clients self) Hst wa Hw0)
          as (hs0 & w0' & Ep & Hw0' & Hall).
        rewrite Ep in Hp. inversion Hp; subst.
        destruct (Hnow wb Hw0') as (t1 & w1' & E1 & Hw1' & _).
        rewrite E1 in Hn'. inversion Hn'; subst.
        split; [exact Hw1' |]. now apply all_unhealthy_scan. }
    destruct Hboth as [Hw1 Hnone]. rewrite Hnone.
    destruct (Hnow w1 Hw1) as (t & w2 & E & Hw2 & Hle). rewrite E.
    assert (Hshort : (_fallback_timeout self1 <? t - start_ts) = false).
    { apply Z.ltb_ge. rewrite Hfb. lia. }
    rewrite Hshort. apply IH; try assumption.
    + intros hs' Hs'. rewrite Hsnap in Hs'. inversion Hs'; subst.
      exact Hnone.
    + now rewrite Hfb.
Qed.

End Outcomes.

(** ** The requests a probe round sends *)




(** ** [__new__] *)

Lemma getattr_setattr (instance : InstanceDict) (name value other : string) :
  getattr_instance (setattr instance name value) other
  = if String.eqb name other then Some value
    else getattr_instance instance other.
Proof.
  induction instance as [| [n v] rest IH]; simpl.
  - reflexivity.
  - destruct (String.eqb n name) eqn:Hn; simpl.
    + apply String.eqb_eq in Hn. subst n.
      now destruct (String.eqb name other).
    + destruct (String.eqb n other) eqn:Ho.
      * apply String.eqb_eq in Ho. subst n.
        now rewrite (String.eqb_sym name other), Hn.
      * exact IH.
Qed.

Lemma getattr_class_dir (cls : ClassDict) (name : string) :
  In name (dir cls) <-> exists v, getattr_class cls name = Some v.
Proof.
  unfold dir. induction cls as [| [n v] rest IH]; simpl.
  - split; [contradiction | intros [v H]; discriminate].
  - destruct (String.eqb n name) eqn:Hn.
    + apply String.eqb_eq in Hn. split; [intros _; now exists v | now left].
    + apply String.eqb_neq in Hn. rewrite <- IH. split.
      * intros [H | H]; [contradiction | exact H].
      * intro H. now right.
Qed.

Lemma public_methods_iff (cls : ClassDict) (name : string) :
  In name (public_methods cls) <->
  String.prefix "_" name = false /\
  exists v, getattr_class cls name = Some v /\ v <> NotCallable.
Proof.
  unfold public_methods. rewrite filter_In, andb_true_iff, negb_true_iff.
  rewrite getattr_class_dir. split.
  - intros ([v Hv] & Hc & Hp). split; [exact Hp |]. exists v.
    split; [exact Hv |]. rewrite Hv in Hc. intro; subst. discriminate.
  - intros (Hp & v & Hv & Hnc). split; [now exists v |]. split; [| exact Hp].
    rewrite Hv. now destruct v.
Qed.

Lemma wrap_methods_ok (cls : ClassDict) (names : list string) :
  forall instance instance',
    wrap_methods cls names instance = inr instance' ->
    forall name,
      (In name names ->
       exists f, getattr_class cls name = Some (FunctionObject f) /\
                 getattr_instance instance' name = Some f) /\
      (~ In name names ->
       getattr_instance instance' name = getattr_instance instance name).
Proof.
  induction names as [| n rest IH]; intros instance instance' Hrun name;
    simpl in Hrun.
  - inversion Hrun; subst. split; [contradiction | reflexivity].
  - destruct (getattr_class cls n) as [method |] eqn:Hn; [| discriminate].
    destruct method as [f | |]; simpl in Hrun; try discriminate.
    destruct (IH _ _ Hrun name) as [Hin Hout].
    destruct (in_dec string_dec name rest) as [Hr | Hr].
    + split; [intros _; now apply Hin |].
      intro Hnot. exfalso. apply Hnot. now right.
    + specialize (Hout Hr). rewrite getattr_setattr in Hout. split.
      * intros [Heq | Hin']; [| contradiction]. subst n.
        rewrite String.eqb_refl in Hout. now exists f.
      * intro Hnot. destruct (String.eqb n name) eqn:He.
        -- apply String.eqb_eq in He. exfalso. apply Hnot. now left.
        -- exact Hout.
Qed.

Lemma wrap_methods_fails (cls : ClassDict) (names : list string) :
  forall instance e,
    (forall name, In name names -> In name (dir cls)) ->
    wrap_methods cls names instance = inl e ->
    e = AssertionError /\
    exists name v, In name names /\ getattr_class cls name = Some v /\
                   isinstance_FunctionType v = false.
Proof.
  induction names as [| n rest IH]; intros instance e Hdir Hrun;
    simpl in Hrun.
  - discriminate.
  - destruct (getattr_class cls n) as [method |] eqn:Hn.
    + destruct method as [f | |]; simpl in Hrun.
      * destruct (IH _ _ (fun m Hm => Hdir m (or_intror Hm)) Hrun)
          as (He & m & v & Hm & Hv & Hf).
        split; [exact He |]. exists m, v. split; [now right | now split].
      * inversion Hrun; subst. split; [reflexivity |].
        exists n, OtherCallable. split; [now left | now split].
      * inversion Hrun; subst. split; [reflexivity |].
        exists n, NotCallable. split; [now left | now split].
    + exfalso. destruct (proj1 (getattr_class_dir cls n) (Hdir n (or_introl eq_refl)))
        as [v Hv]. congruence.
Qed.

Lemma wrap_methods_all_functions (cls : ClassDict) (names : list string) :
  forall instance,
    (forall name, In name names ->
       exists f, getattr_class cls name = Some (FunctionObject f)) ->
    exists instance', wrap_methods cls names instance = inr instance'.
Proof.
  induction names as [| n rest IH]; intros instance Hall; simpl.
  - now exists instance.
  - destruct (Hall n (or_introl eq_refl)) as [f Hf]. rewrite Hf. simpl.
    apply IH. intros m Hm. apply Hall. now right.
Qed.

(** X14. [__new__] replaces the public methods of [Minio] and nothing
    else.  It fails, with the [AssertionError] of [_method_wrapper], exactly
    when some name of [dir(Minio)] without a leading underscore is bound to
    a callable that is not a plain function.  Otherwise the instance gets
    an attribute for a name exactly when the name has no leading underscore
    and is bound in [Minio] to a function, and the attribute is the wrapper
    of that function; names with a leading underscore and data attributes
    are left to the class. *)
Theorem new_wraps_public_methods (cls : ClassDict) :
  ((exists name v,
      getattr_class cls name = Some v /\ String.prefix "_" name = false /\
      v <> NotCallable /\ isinstance_FunctionType v = false) <->
   __new__ cls = inl AssertionError) /\
  (forall e, __new__ cls = inl e -> e = AssertionError) /\
  (forall instance,
     __new__ cls = inr instance ->
     forall name f,
       getattr_instance instance name = Some f <->
       String.prefix "_" name = false /\
       getattr_class cls name = Some (FunctionObject f)).
Proof.
  assert (Hdir : forall name, In name (public_methods cls) -> In name (dir cls)).
  { intros name H. apply public_methods_iff in H as (_ & v & Hv & _).
    apply getattr_class_dir. now exists v. }
  split; [| split].
  - split.
    + intros (name & v & Hv & Hp & Hc & Hf).
      destruct (__new__ cls) as [e | instance] eqn:Hnew.
      * unfold __new__ in Hnew.
        apply wrap_methods_fails in Hnew as [He _]; [now subst | exact Hdir].
      * exfalso. unfold __new__ in Hnew.
        destruct (wrap_methods_ok _ _ _ _ Hnew name) as [Hin _].
        destruct Hin as (f & Hcls & _).
        { apply public_methods_iff. split; [exact Hp |]. now exists v. }
        rewrite Hv in Hcls. inversion Hcls; subst. discriminate.
    + intro Hnew. unfold __new__ in Hnew.
      apply wrap_methods_fails in Hnew as (_ & name & v & Hin & Hv & Hf);
        [| exact Hdir].
      apply public_methods_iff in Hin as (Hp & v' & Hv' & Hc).
      rewrite Hv in Hv'. inversion Hv'; subst v'.
      exists name, v. now repeat split.
  - intros e Hnew. unfold __new__ in Hnew.
    now apply wrap_methods_fails in Hnew as [He _].
  - intros instance Hnew name f. unfold __new__ in Hnew.
    destruct (wrap_methods_ok _ _ _ _ Hnew name) as [Hin Hout].
    destruct (in_dec string_dec name (public_methods cls)) as [Hp | Hp].
    + destruct (Hin Hp) as (f' & Hcls & Hinst).
      apply public_methods_iff in Hp as (Hpre & _).
      rewrite Hinst, Hcls. split.
      * intro H. inversion H; subst. now split.
      * intros [_ H]. now inversion H; subst.
    + rewrite (Hout Hp). simpl. split; [discriminate |].
      intros [Hpre Hcls]. exfalso. apply Hp. apply public_methods_iff.
      split; [exact Hpre |]. eexists. split; [exact Hcls | discriminate].
Qed.

(** X15. A failure marker older than [_fallback_timeout] makes the next
    failure final at once.  In a call that needs no heartbeat search, when
    the wrapped method raises an exception that is not re-raised, the
    marker is a non-zero timestamp, the snapshot then retrieved has no
    healthy entry and the clock is more than [_fallback_timeout] past the
    marker, the call raises "All Minio clients are down" after that single
    retrieval, with the time since the marker as its duration. *)
Theorem stale_marker_fails_fast {World : Type} {env : Environment World}
    (fuel : nat) (func : Call) (self self1 : MultiMinio) (client : Minio)
    (w w1 w2 w3 w4 w5 w6 : World) (start_try_ts t1 t2 t t0 : TS)
    (e : PyException) (hs : list HealthStatus) :
  now w = (start_try_ts, w1) ->
  now w1 = (t1, w2) ->
  _current_client_index self = 0%nat \/
  t1 - _last_health_check_ts self <= _health_check_heartbeat self ->
  nth_error (_clients self) (_current_client_index self) = Some client ->
  now w2 = (t2, w3) ->
  t2 - start_try_ts < _fallback_timeout self ->
  call_method client func w3 = (Raised e, w4) ->
  is_S3Error e = false ->
  is_InvalidResponseError e = false ->
  _current_fail_ts self = Some t0 ->
  t0 <> 0 ->
  _retrieve_clients_health self w4 = (Return hs, self1, w5) ->
  (forall j, ~ healthy_at hs j) ->
  now w5 = (t, w6) ->
  _fallback_timeout self < t - t0 ->
  _execute_with_fallback (S (S fuel)) func self w
    = (Raise (MinioException (AllClientsDown (t - t0))), self1, w6).
Proof.
  intros Hnow0 Hnow1 Hstay Hitem Hnow2 Hguard Hcall Hs3 Hinv Hmark Hnz Hget
    Hnone Hnow Hlong.
  rewrite execute_unfold, Hnow0, get_current_client_unfold, Hnow1.
  assert (Hno : heartbeat_expired self t1 = false).
  { unfold heartbeat_expired. apply andb_false_iff.
    destruct Hstay as [H0 | Hage].
    - left. now rewrite H0.
    - right. now apply Z.ltb_ge. }
  rewrite Hno. unfold item. rewrite Hitem.
  rewrite fallback_loop_unfold, Hnow2.
  apply Z.ltb_lt in Hguard. rewrite Hguard, Hcall.
  unfold reraised. rewrite Hs3, Hinv. cbn [orb].
  assert (Hsame : mark_failure start_try_ts self = self).
  { unfold mark_failure. now rewrite Hmark. }
  rewrite Hsame.
  assert (Hstart : fail_ts_or_now self w4 = (Return t0, self, w4)).
  { unfold fail_ts_or_now, bind, get_self, ret. cbn beta iota.
    rewrite Hmark. apply Z.eqb_neq in Hnz. now rewrite Hnz. }
  rewrite (get_next_client_unfold _ _ _ _ _ Hstart).
  rewrite next_client_loop_unfold, Hget.
  rewrite (proj2 (first_healthy_none hs) Hnone), Hnow.
  pose proof (retrieve_frame _ _ _ _ _ Hget) as ((_ & _ & Hfb & _) & _).
  rewrite Hfb. apply Z.ltb_lt in Hlong. now rewrite Hlong.
Qed.

(** ** Concrete runs of the further properties *)

Lemma ticking_advancing : advancing (env := ticking) (fun w => w) 1.
Proof.
  constructor.
  - lia.
  - intros w t w' H. cbn in H. inversion H; subst. lia.
  - intros url timeout w r w' H. cbn in H. inversion H; subst. lia.
  - intros client func w o w' H. cbn in H. inversion H; subst. lia.
Qed.

Lemma used_up_stalled (reading : TS) :
  stalled (env := scripted) (used_up reading) reading.
Proof.
  constructor.
  - intros w (Hc & Hh & Hr). exists reading, w. cbn [now scripted].
    unfold script_now. rewrite Hc, Hr. split; [reflexivity |].
    split; [now repeat split | lia].
  - intros url timeout w (Hc & Hh & Hr). cbn [requests_get scripted].
    unfold script_get. rewrite Hh. eexists. eexists.
    split; [reflexivity |]. split; [now repeat split | discriminate].
Qed.


(** The value [test_multiminio_get_object] gets is the one client 2
    returned. *)
Lemma wrapped_call_returns_witness :
  exists client wa w',
    nth_error (_clients multi_minio) 1 = Some client /\
    script_call client get_object wa = (Returned EXPECTED_RESULT, w').
Proof.
  edestruct (wrapped_call_returns (env := scripted) 2 get_object multi_minio)
    with (w := test_world) as (_ & client & wa & Hn & Hc).
  - reflexivity.
  - vm_compute. reflexivity.
  - exists client, wa. eexists. split; [exact Hn | exact Hc].
Defined.

(** The call of [slow_failover_world] ends with an exception and leaves the
    marker at its own start. *)
Lemma wrapped_call_keeps_marker_witness :
  _current_fail_ts stale = _current_fail_ts impatient \/
  _current_fail_ts impatient = None /\ _current_fail_ts stale = Some 1000000.
Proof.
  eapply (wrapped_call_keeps_marker (env := scripted) 2 get_object impatient
            stale slow_failover_world).
  - reflexivity.
  - vm_compute. reflexivity.
  - vm_compute. reflexivity.
Defined.

(** A call answered by client 1 at once. *)
Lemma first_try_returns_witness :
  exists w4,
    _execute_with_fallback 1 get_object multi_minio nominal_world
      = (Return EXPECTED_RESULT, set_current_fail_ts None multi_minio, w4).
Proof.
  eexists.
  eapply (first_try_returns (env := scripted) 0 get_object multi_minio client1
            nominal_world).
  - vm_compute. reflexivity.
  - vm_compute. reflexivity.
  - left. reflexivity.
  - reflexivity.
  - vm_compute. reflexivity.
  - vm_compute. reflexivity.
  - vm_compute. reflexivity.
Defined.

(** The default arguments give an object with the invariant, and the test
    call keeps it. *)
Lemma wrapped_call_keeps_invariant_witness :
  wf multi_minio = true /\ wf degraded = true /\
  same_config multi_minio degraded.
Proof.
  split.
  - apply (proj1 wrapped_call_keeps_invariant (default_args [client1; client2])).
    reflexivity.
  - eapply (proj2 (wrapped_call_keeps_invariant (env := scripted))
              2%nat get_object multi_minio test_world).
    + reflexivity.
    + vm_compute. reflexivity.
Defined.

(** The search of [first_outage_search] reports 69.999 s, counted from its
    entry. *)
Lemma all_down_reports_down_time_witness :
  exists start_ts t,
    69999 = t - start_ts /\ _fallback_timeout degraded < 69999.
Proof.
  edestruct (all_down_reports_down_time (env := scripted) 1 degraded)
    with (w := first_outage_search) as (start_ts & wx & t & _ & Hd & Hlt & _).
  - vm_compute. reflexivity.
  - exists start_ts, t. split; [exact Hd | exact Hlt].
Defined.

(** On [degraded], 1000 s after its snapshot, the re-check probes both
    clients. *)
Lemma heartbeat_recheck_probes_witness :
  exists hs t'' w5,
    _retrieve_clients_health degraded
      (snd (script_now (snd (script_now recheck_outage))))
    = (Return hs, set_health t'' hs degraded, w5).
Proof.
  edestruct (heartbeat_recheck_probes (env := scripted) 1 degraded
               recheck_outage)
    as (_ & hs & w4 & t'' & w5 & _ & _ & Hrun).
  - vm_compute. discriminate.
  - vm_compute. discriminate.
  - vm_compute. reflexivity.
  - vm_compute. lia.
  - vm_compute. reflexivity.
  - vm_compute. reflexivity.
  - vm_compute. reflexivity.
  - vm_compute. discriminate.
  - exists hs, t'', w5. exact Hrun.
Defined.

(** On [degraded], once client 1 answers 200 again, the re-check goes back
    to it. *)
Lemma heartbeat_recheck_returns_to_primary_witness :
  exists self1 w3,
    _get_current_client 1 degraded recheck_recovered
      = (Return client1, set_current_client_index 0 self1, w3).
Proof.
  edestruct (heartbeat_recheck_returns_to_primary (env := scripted) 0 degraded)
    with (w := recheck_recovered) (client0 := client1) as (Hrun & _).
  - vm_compute. reflexivity.
  - vm_compute. lia.
  - vm_compute. reflexivity.
  - vm_compute. reflexivity.
  - vm_compute. reflexivity.
  - exists (mkHealthStatus (inl 200) (Some 9)). split; reflexivity.
  - reflexivity.
  - eexists. eexists. exact Hrun.
Defined.

(** A probe answered with 503 is recorded with that status and is not
    healthy. *)
Lemma check_health_status_outcome_witness :
  exists h w3,
    _check_health_status multi_minio client1 unavailable_world = (h, w3) /\
    status_code h = inl 503 /\ is_healthy h = false.
Proof.
  edestruct (check_health_status_outcome (env := scripted) multi_minio client1
               unavailable_world)
    as (h & Hrun & _ & Hcode & Hiff).
  - vm_compute. reflexivity.
  - vm_compute. reflexivity.
  - vm_compute. reflexivity.
  - exists h. eexists. split; [exact Hrun |]. split; [exact Hcode |].
    destruct (is_healthy h); [| reflexivity].
    discriminate (proj1 Hiff eq_refl).
Defined.

(** With a clock advancing 1 ms at every reading and [fallback_timeout] at
    8 ms, the search on [hasty] ends within 10 turns. *)
Lemma search_terminates_witness :
  exists r self' w',
    _get_next_client (env := ticking) 10 hasty 1000 = (r, self', w') /\
    r <> OutOfFuel.
Proof.
  apply (search_terminates (env := ticking) (fun w => w) 1 9 hasty 1000).
  - exact ticking_advancing.
  - intros t0 H. vm_compute in H. discriminate.
  - vm_compute. reflexivity.
Defined.

(** Under the same clock a wrapped call on [hasty] ends within 10 turns. *)
Lemma wrapped_call_terminates_witness :
  exists r self' w',
    _execute_with_fallback (env := ticking) 10 get_object hasty 1000
      = (r, self', w') /\
    r <> OutOfFuel.
Proof.
  apply (wrapped_call_terminates (env := ticking) (fun w => w) 1 9 get_object
           hasty 1000).
  - exact ticking_advancing.
  - vm_compute. discriminate.
  - intros t0 H. vm_compute in H. discriminate.
  - vm_compute. reflexivity.
Defined.

(** With the mocked clock resting at the origin of the search and
    [requests.get] raising, fifty turns of the search do not end it. *)
Lemma search_spins_witness :
  exists self' w',
    next_client_loop 50 1000 multi_minio (frozen 1000) = (OutOfFuel, self', w').
Proof.
  apply (search_spins (env := scripted) (used_up 1000) 1000 1000 50
           (used_up_stalled 1000)).
  - repeat split.
  - reflexivity.
  - intros hs H. vm_compute in H. discriminate.
  - vm_compute. discriminate.
Defined.

(** On [stale], whose marker is 100 s old with [fallback_timeout] at 2 s, a
    failure of client 2 with both probes failing is final after one probe
    round, and reports 100.05 s. *)
Lemma stale_marker_fails_fast_witness :
  exists self1 w6,
    _execute_with_fallback 2 get_object stale stale_world
      = (Raise (MinioException (AllClientsDown 100050)), self1, w6).
Proof.
  eexists. eexists.
  eapply (stale_marker_fails_fast (env := scripted) 0 get_object stale _
            client2 stale_world _ _ _ _ _ _ _ _ _ 1100050 1000000).
  - vm_compute. reflexivity.
  - vm_compute. reflexivity.
  - right. vm_compute. discriminate.
  - vm_compute. reflexivity.
  - vm_compute. reflexivity.
  - vm_compute. reflexivity.
  - vm_compute. reflexivity.
  - reflexivity.
  - reflexivity.
  - vm_compute. reflexivity.
  - discriminate.
  - vm_compute. reflexivity.
  - intros [| [| [| j]]] [h [Hh Hcode]]; simpl in Hh;
      try discriminate; inversion Hh; subst h; discriminate.
  - vm_compute. reflexivity.
  - vm_compute. reflexivity.
Defined.


(** On [minio_class] the instance gets wrappers for [get_object] and
    [put_object] and none for [_url_open] and [region]. *)
Lemma new_wraps_public_methods_witness :
  exists instance,
    __new__ minio_class = inr instance /\
    getattr_instance instance "get_object" = Some "get_object" /\
    getattr_instance instance "_url_open" = None /\
    getattr_instance instance "region" = None.
Proof.
  destruct (__new__ minio_class) as [e | instance] eqn:Hnew.
  - vm_compute in Hnew. discriminate.
  - exists instance. split; [reflexivity |].
    pose proof (proj2 (proj2 (new_wraps_public_methods minio_class))
                  instance Hnew) as Hattr.
    split; [| split].
    + apply Hattr. split; reflexivity.
    + destruct (getattr_instance instance "_url_open") as [f |] eqn:Hf;
        [| reflexivity].
      apply Hattr in Hf as [Hp _]. vm_compute in Hp. discriminate.
    + destruct (getattr_instance instance "region") as [f |] eqn:Hf;
        [| reflexivity].
      apply Hattr in Hf as [_ Hc]. vm_compute in Hc. discriminate.
Defined.

